(** * DoujinShelf: the catalogue filter and the extra-attribute form

    A shallow embedding of the client-side logic of
    [frontend/src/App.jsx]: the [filteredWorks] memo (the multi-criteria
    filter over the loaded works), the [extraJson] memo (the mapping built
    from the form's key/value rows) and the handlers that edit the form's
    row list.

    Modelling conventions.
    - A JavaScript string is the [string] of the UTF-8 bytes of its text
      (well-formed text: no lone surrogate). On such strings a byte-wise
      occurrence is an occurrence of the text, so [includes] is written
      out on bytes; [trim] is written out for the whole white-space set
      of the language, and [JSON.stringify] for string-valued objects.
    - A JavaScript number is an IEEE binary64 [float]; [<] and [>] are
      [PrimFloat.ltb].
    - What the runtime owns is a parameter of the development
      ([JsRuntime]): the conversions between text and numbers, [Number]
      on a string, [new Date(v).getTime()] and [String] on a number, and
      the case folding [toLowerCase]. Two laws of the folding are used:
      the empty string, and no other, folds to the empty string; and
      ASCII text folds letter by letter, A to Z to a to z.
    - [null] and [undefined] are [None]. *)

From Stdlib Require Import Floats Uint63 ZArith Ascii String List Bool Lia.
From stdpp Require Import gmap strings list fin_maps pretty.

Open Scope string_scope.

(* ===================================================================== *)
(** ** JavaScript strings *)
(* ===================================================================== *)

Module Js.

(** [Boolean(s)] for a string: only the empty string is falsy. *)
Definition truthy (s : string) : bool :=
  match s with
  | EmptyString => false
  | String _ _ => true
  end.

(** Text of the ASCII alphabet only: every byte is below 128. *)
Definition ascii_text (s : string) : bool :=
  forallb (fun c => (nat_of_ascii c <? 128)%nat) (list_ascii_of_string s).

Definition is_upper (c : ascii) : bool :=
  let n := nat_of_ascii c in (65 <=? n)%nat && (n <=? 90)%nat.

Definition lower_ascii (c : ascii) : ascii :=
  if is_upper c then ascii_of_nat (nat_of_ascii c + 32) else c.

(** The lower-case form of ASCII text: A to Z become a to z. *)
Fixpoint lower (s : string) : string :=
  match s with
  | EmptyString => EmptyString
  | String c rest => String (lower_ascii c) (lower rest)
  end.

(** [s.startsWith(t)] *)
Fixpoint startsWith (s t : string) {struct t} : bool :=
  match t with
  | EmptyString => true
  | String b t' =>
      match s with
      | EmptyString => false
      | String a s' => Ascii.eqb a b && startsWith s' t'
      end
  end.

(** [s.includes(t)]: [t] occurs in [s] at some position. *)
Fixpoint includes (s t : string) : bool :=
  startsWith s t ||
  match s with
  | EmptyString => false
  | String _ rest => includes rest t
  end.

(** White space removed by [trim]: the WhiteSpace and LineTerminator
    code points of the language, by their UTF-8 encodings.
    One byte: TAB, LF, VT, FF, CR and SPACE. *)
Definition is_space1 (c : ascii) : bool :=
  let n := nat_of_ascii c in
  ((9 <=? n)%nat && (n <=? 13)%nat) || (n =? 32)%nat.

(** Two bytes: U+00A0 (C2 A0), the no-break space. *)
Definition is_space2 (c1 c2 : ascii) : bool :=
  (nat_of_ascii c1 =? 194)%nat && (nat_of_ascii c2 =? 160)%nat.

(** Three bytes: U+1680 (E1 9A 80), U+2000 to U+200A (E2 80 80 to
    E2 80 8A), U+2028 and U+2029 (E2 80 A8, E2 80 A9), U+202F (E2 80 AF),
    U+205F (E2 81 9F), U+3000 (E3 80 80) and U+FEFF (EF BB BF). *)
Definition is_space3 (c1 c2 c3 : ascii) : bool :=
  let n1 := nat_of_ascii c1 in
  let n2 := nat_of_ascii c2 in
  let n3 := nat_of_ascii c3 in
  ((n1 =? 225)%nat && (n2 =? 154)%nat && (n3 =? 128)%nat)
  || ((n1 =? 226)%nat && (n2 =? 128)%nat &&
      (((128 <=? n3)%nat && (n3 <=? 138)%nat)
       || (n3 =? 168)%nat || (n3 =? 169)%nat || (n3 =? 175)%nat))
  || ((n1 =? 226)%nat && (n2 =? 129)%nat && (n3 =? 159)%nat)
  || ((n1 =? 227)%nat && (n2 =? 128)%nat && (n3 =? 128)%nat)
  || ((n1 =? 239)%nat && (n2 =? 187)%nat && (n3 =? 191)%nat).

(** The string after its first character, when that is white space. *)
Definition skip_space (s : string) : option string :=
  match s with
  | EmptyString => None
  | String c1 rest1 =>
      if is_space1 c1 then Some rest1 else
      match rest1 with
      | EmptyString => None
      | String c2 rest2 =>
          if is_space2 c1 c2 then Some rest2 else
          match rest2 with
          | EmptyString => None
          | String c3 rest3 =>
              if is_space3 c1 c2 c3 then Some rest3 else None
          end
      end
  end.

(** [s.trimStart()] *)
Fixpoint trimStart (s : string) : string :=
  match s with
  | EmptyString => EmptyString
  | String c1 rest1 =>
      if is_space1 c1 then trimStart rest1 else
      match rest1 with
      | EmptyString => s
      | String c2 rest2 =>
          if is_space2 c1 c2 then trimStart rest2 else
          match rest2 with
          | EmptyString => s
          | String c3 rest3 =>
              if is_space3 c1 c2 c3 then trimStart rest3 else s
          end
      end
  end.

(** Nothing but white space. *)
Definition blank (s : string) : bool :=
  match trimStart s with
  | EmptyString => true
  | String _ _ => false
  end.

(** [s.trimEnd()]: the string up to its trailing white space. *)
Fixpoint trimEnd (s : string) : string :=
  match s with
  | EmptyString => EmptyString
  | String c rest => if blank s then EmptyString else String c (trimEnd rest)
  end.

(** [s.trim()] *)
Definition trim (s : string) : string := trimEnd (trimStart s).

End Js.

(* ===================================================================== *)
(** ** JavaScript numbers and the runtime's parsers *)
(* ===================================================================== *)

(** What the component asks of the runtime. The two parsers answer NaN
    on text they cannot read. *)
Class JsRuntime := {
  (** [Number(s)] for a string [s] *)
  StringToNumber : string -> float;
  (** [new Date(s).getTime()]: milliseconds since the epoch *)
  Date_getTime : string -> float;
  (** [String(x)] for a number [x] *)
  NumberToString : float -> string;
  (** [s.toLowerCase()] *)
  toLowerCase : string -> string;
  (** lower-casing neither empties a string nor fills the empty one *)
  toLowerCase_empty : forall s, toLowerCase s = "" <-> s = "";
  (** on ASCII text it folds A to Z and nothing else *)
  toLowerCase_ascii : forall s, Js.ascii_text s = true -> toLowerCase s = Js.lower s
}.

(** A price as the server's JSON carries it: a number or a decimal
    string. *)
Inductive scalar :=
  | SNum (x : float)
  | SStr (s : string).

(** [Number(v)] *)
Definition Number `{JsRuntime} (v : scalar) : float :=
  match v with
  | SNum x => x
  | SStr s => StringToNumber s
  end.

(** [a < b] and [a > b] on numbers; both are false when a side is NaN. *)
Definition js_lt (a b : float) : bool := PrimFloat.ltb a b.
Definition js_gt (a b : float) : bool := PrimFloat.ltb b a.


Definition isNaN (a : float) : bool := PrimFloat.is_nan a.

(* ===================================================================== *)
(** ** Data model *)
(* ===================================================================== *)

(** [{id, name}]: an author, a circle or a purchase event as embedded in
    a work. *)
Module Named.
Record t := mk { id : Z; name : string }.
End Named.

(** A work as [GET /works] returns it. *)
Module Work.
Record t := mk {
  id : Z;
  title : option string;
  author : option Named.t;
  circle : option Named.t;
  is_r18 : option bool;
  summary : option string;
  purchase_date : option string;
  purchase_event : option Named.t;
  price : option scalar;
  tags : option (list string);
  (** the own properties of the [extra] object, in enumeration order *)
  extra : option (list (string * string));
  cover_image_url : option string
}.

End Work.

(** The [filters] state: every field is the text of an input. *)
Module Filters.
Record t := mk {
  title : string;
  author : string;
  circle : string;
  summary : string;
  purchase_event : string;
  tags : string;
  extra : string;
  price_min : string;
  price_max : string;
  date_from : string;
  date_to : string;
  is_r18 : string
}.

(** The initial value of the state (lines 14-27). *)
Definition initial : t :=
  mk "" "" "" "" "" "" "" "" "" "" "" "all".
End Filters.

(* ===================================================================== *)
(** ** [JSON.stringify] of a string-valued object *)
(* ===================================================================== *)

Module JSON.

Definition hex_digit (n : nat) : ascii :=
  if (n <? 10)%nat then ascii_of_nat (48 + n) else ascii_of_nat (87 + n).

(** One character of a string literal: quote and backslash are escaped,
    control characters use their short escape or [\u00xx]. *)
Definition escape_char (c : ascii) : string :=
  let n := nat_of_ascii c in
  if (n =? 34)%nat then "\" +:+ String c ""
  else if (n =? 92)%nat then "\\"
  else if (n =? 8)%nat then "\b"
  else if (n =? 9)%nat then "\t"
  else if (n =? 10)%nat then "\n"
  else if (n =? 12)%nat then "\f"
  else if (n =? 13)%nat then "\r"
  else if (n <? 32)%nat then
    "\u00" +:+ String (hex_digit (n / 16)) (String (hex_digit (n mod 16)) "")
  else String c "".

Fixpoint escape (s : string) : string :=
  match s with
  | EmptyString => ""
  | String c rest => escape_char c +:+ escape rest
  end.

Definition quote (s : string) : string :=
  String (ascii_of_nat 34) (escape s +:+ String (ascii_of_nat 34) "").

Definition member (kv : string * string) : string :=
  quote kv.1 +:+ ":" +:+ quote kv.2.

Fixpoint members (kvs : list (string * string)) : string :=
  match kvs with
  | [] => ""
  | [kv] => member kv
  | kv :: rest => member kv +:+ "," +:+ members rest
  end.

(** [JSON.stringify(obj)] for an object whose own properties are [kvs]. *)
Definition stringify (kvs : list (string * string)) : string :=
  "{" +:+ members kvs +:+ "}".

End JSON.

(* ===================================================================== *)
(** ** The filter: [filteredWorks] (lines 55-98) *)
(* ===================================================================== *)

Section FilterCode.
Context `{JsRuntime}.

(** [const q = (v) => (v || "").toString().toLowerCase()] *)
Definition q (v : option string) : string :=
  toLowerCase (default "" v).

(** [const contains = (base, term) => q(base).includes(q(term))] *)
Definition contains (base : option string) (term : string) : bool :=
  Js.includes (q base) (q (Some term)).

(** [const dateVal = (v) => (v ? new Date(v).getTime() : null)] *)
Definition dateVal (v : option string) : option float :=
  match v with
  | Some s => if Js.truthy s then Some (Date_getTime s) else None
  | None => None
  end.

(** [filters.price_min !== "" ? Number(filters.price_min) : null] *)
Definition minPrice (f : Filters.t) : option float :=
  if String.eqb (Filters.price_min f) "" then None
  else Some (StringToNumber (Filters.price_min f)).

Definition maxPrice (f : Filters.t) : option float :=
  if String.eqb (Filters.price_max f) "" then None
  else Some (StringToNumber (Filters.price_max f)).

(** [filters.date_from ? dateVal(filters.date_from) : null] *)
Definition fromDate (f : Filters.t) : option float :=
  if Js.truthy (Filters.date_from f) then dateVal (Some (Filters.date_from f))
  else None.

Definition toDate (f : Filters.t) : option float :=
  if Js.truthy (Filters.date_to f) then dateVal (Some (Filters.date_to f))
  else None.

(** [w.author?.name] and its siblings *)
Definition name_of (e : option Named.t) : option string :=
  Named.name <$> e.

(** [Boolean(w.is_r18)] *)
Definition Boolean (b : option bool) : bool := default false b.

(** The callback of [works.filter]: one early [return false] per
    criterion, in the order of the source. *)
Definition keep (f : Filters.t) (w : Work.t) : bool :=
  if Js.truthy (Filters.title f)
     && negb (contains (Work.title w) (Filters.title f)) then false else
  if Js.truthy (Filters.author f)
     && negb (contains (name_of (Work.author w)) (Filters.author f)) then false else
  if Js.truthy (Filters.circle f)
     && negb (contains (name_of (Work.circle w)) (Filters.circle f)) then false else
  if Js.truthy (Filters.summary f)
     && negb (contains (Work.summary w) (Filters.summary f)) then false else
  if Js.truthy (Filters.purchase_event f)
     && negb (contains (name_of (Work.purchase_event w)) (Filters.purchase_event f))
  then false else
  if Js.truthy (Filters.tags f)
     && negb (existsb (fun t => contains (Some t) (Filters.tags f))
                      (default [] (Work.tags w)))
  then false else
  if Js.truthy (Filters.extra f)
     && negb (contains (Some (JSON.stringify (default [] (Work.extra w))))
                       (Filters.extra f))
  then false else
  if match minPrice f with
     | Some lo =>
         match Work.price w with
         | None => true
         | Some p => js_lt (Number p) lo
         end
     | None => false
     end then false else
  if match maxPrice f with
     | Some hi =>
         match Work.price w with
         | None => true
         | Some p => js_gt (Number p) hi
         end
     | None => false
     end then false else
  if match fromDate f with
     | Some lo =>
         match dateVal (Work.purchase_date w) with
         | None => true
         | Some d => js_lt d lo
         end
     | None => false
     end then false else
  if match toDate f with
     | Some hi =>
         match dateVal (Work.purchase_date w) with
         | None => true
         | Some d => js_gt d hi
         end
     | None => false
     end then false else
  if negb (String.eqb (Filters.is_r18 f) "all")
     && negb (Bool.eqb (Boolean (Work.is_r18 w))
                       (String.eqb (Filters.is_r18 f) "true"))
  then false else
  true.

(** [works.filter((w) => ...)] *)
Definition filteredWorks (works : list Work.t) (f : Filters.t) : list Work.t :=
  List.filter (keep f) works.

End FilterCode.

(* ===================================================================== *)
(** ** The form and its extra-attribute rows *)
(* ===================================================================== *)

(** A row object. [emptyExtraRow()] and [startEdit] build rows with both
    properties; the spread [{...undefined, [key]: value}] of [updateExtra]
    builds one with a single property, the other reading [undefined]
    ([None]). *)
Module Row.
Record t := mk { key : option string; value : option string }.
End Row.

(** [function emptyExtraRow() { return { key: "", value: "" }; }] *)
Definition emptyExtraRow : Row.t := Row.mk (Some "") (Some "").

(** An element of a JavaScript array of rows: a hole (an index below
    [length] with no property), [undefined], or a row object. *)
Inductive elt :=
  | Hole
  | Undefined
  | Obj (r : Row.t).

(** The property name [updateExtra] receives: ["key"] or ["value"]. *)
Inductive prop := PKey | PValue.

Module Arr.

(** [[...a]]: the iterator reads a hole as [undefined]. *)
Definition spread (a : list elt) : list elt :=
  (fun e => match e with Hole => Undefined | _ => e end) <$> a.

(** [a[i]] read: [undefined] out of range and on a hole. *)
Definition get (a : list elt) (i : nat) : elt :=
  match a !! i with
  | Some Hole | None => Undefined
  | Some e => e
  end.

(** [a[i] = x]: in range the element is replaced; past the end the array
    grows to length [i + 1], the new indices before [i] being holes. *)
Definition set (a : list elt) (i : nat) (x : elt) : list elt :=
  if decide (i < length a) then <[i := x]> a
  else a ++ replicate (i - length a) Hole ++ [x].

(** [a.filter((_, i) => i !== index)], the elements numbered from [i]:
    holes are never visited, hence never kept. *)
Fixpoint filter_from (i index : nat) (a : list elt) : list elt :=
  match a with
  | [] => []
  | e :: rest =>
      match e with
      | Hole => filter_from (S i) index rest
      | _ => if decide (i = index) then filter_from (S i) index rest
             else e :: filter_from (S i) index rest
      end
  end.

Definition filter_ne (index : nat) (a : list elt) : list elt :=
  filter_from 0 index a.

End Arr.

(** [{ ...e, [p]: v }] *)
Definition spread_with (e : elt) (p : prop) (v : string) : Row.t :=
  let r := match e with Obj r => r | _ => Row.mk None None end in
  match p with
  | PKey => Row.mk (Some v) (Row.value r)
  | PValue => Row.mk (Row.key r) (Some v)
  end.

Module Form.
Record t := mk {
  title : string;
  author_name : string;
  circle_name : string;
  is_r18 : bool;
  summary : string;
  purchase_date : string;
  purchase_event_name : string;
  price : string;
  tags : string;
  extra : list elt;
  (** the chosen file, by name *)
  cover : option string
}.

(** The object literal of lines 29-41, 200-212 and 240-252. *)
Definition blank : t :=
  mk "" "" "" false "" "" "" "" "" [Obj emptyExtraRow] None.

(** [{ ...f, extra: rows }] *)
Definition with_extra (rows : list elt) (f : t) : t :=
  mk (title f) (author_name f) (circle_name f) (is_r18 f) (summary f)
     (purchase_date f) (purchase_event_name f) (price f) (tags f)
     rows (cover f).
End Form.

(** [updateExtra(index, key, value)] (lines 157-163) *)
Definition updateExtra (index : nat) (p : prop) (v : string) (f : Form.t) : Form.t :=
  let next := Arr.spread (Form.extra f) in
  let next := Arr.set next index (Obj (spread_with (Arr.get next index) p v)) in
  Form.with_extra next f.

(** [addExtraRow()] (lines 165-167) *)
Definition addExtraRow (f : Form.t) : Form.t :=
  Form.with_extra (Arr.spread (Form.extra f) ++ [Obj emptyExtraRow]) f.

(** [removeExtraRow(index)] (lines 169-174) *)
Definition removeExtraRow (index : nat) (f : Form.t) : Form.t :=
  let next := Arr.filter_ne index (Form.extra f) in
  Form.with_extra (if decide (length next = 0) then [Obj emptyExtraRow] else next) f.

(* ===================================================================== *)
(** ** [extraJson] (lines 47-53) *)
(* ===================================================================== *)

(** [obj[k] = v] on an object created by [{}], for [v] a string or
    [undefined]. An ordinary assignment creates or overwrites the own
    property [k], unless the prototype chain holds a setter for [k]. The
    one setter [Object.prototype] has is that of ["__proto__"] (ECMA-262,
    [set Object.prototype.__proto__]): the assignment calls it, and it
    returns without effect when the value is neither an object nor
    [null], so no own property is created. The stored value is [None]
    when the assigned value is [undefined]. *)
Definition obj_set (k : string) (v : option string)
    (obj : gmap string (option string)) : gmap string (option string) :=
  if decide (k = "__proto__") then obj else <[k := v]> obj.

(** One turn of the [for ... of] loop; [None] is the [TypeError] thrown
    when [row] or [row.key] is [undefined]. *)
Definition extraJson_step (obj : gmap string (option string)) (e : elt)
    : option (gmap string (option string)) :=
  match e with
  | Obj r =>
      match Row.key r with
      | Some k =>
          if Js.truthy (Js.trim k) then Some (obj_set (Js.trim k) (Row.value r) obj)
          else Some obj
      | None => None
      end
  | _ => None
  end.

Fixpoint extraJson_from (obj : gmap string (option string)) (rows : list elt)
    : option (gmap string (option string)) :=
  match rows with
  | [] => Some obj
  | e :: rest =>
      match extraJson_step obj e with
      | Some obj' => extraJson_from obj' rest
      | None => None
      end
  end.

Definition extraJson (rows : list elt) : option (gmap string (option string)) :=
  extraJson_from ∅ rows.

(** The rows a user submits: each with a key text and a value text. *)
Definition row_of (kv : string * string) : elt :=
  Obj (Row.mk (Some kv.1) (Some kv.2)).

(* ===================================================================== *)
(** ** The handlers that replace the form *)
(* ===================================================================== *)

Inductive View := VForm | VWorks | VAuthors | VCircles | VEvents | VTags.

(** The part of the component state the form handlers read and write. *)
Module App.
Record t := mk {
  form : Form.t;
  editingId : option Z;
  view : View
}.

(** The [useState] initial values (lines 12, 28-41). *)
Definition initial : t := mk Form.blank None VForm.
End App.

(** The [name] of an input wired to [updateField], with the value the
    handler stores. *)
Inductive field_update :=
  | FTitle (v : string)
  | FAuthorName (v : string)
  | FCircleName (v : string)
  | FIsR18 (checked : bool)
  | FSummary (v : string)
  | FPurchaseDate (v : string)
  | FPurchaseEventName (v : string)
  | FPrice (v : string)
  | FTags (v : string).

(** [updateField(e)] (lines 126-130): [{ ...f, [name]: nextValue }] *)
Definition updateField (u : field_update) (f : Form.t) : Form.t :=
  let '(Form.mk t a c r s d e p g x k) := f in
  match u with
  | FTitle v => Form.mk v a c r s d e p g x k
  | FAuthorName v => Form.mk t v c r s d e p g x k
  | FCircleName v => Form.mk t a v r s d e p g x k
  | FIsR18 b => Form.mk t a c b s d e p g x k
  | FSummary v => Form.mk t a c r v d e p g x k
  | FPurchaseDate v => Form.mk t a c r s v e p g x k
  | FPurchaseEventName v => Form.mk t a c r s d v p g x k
  | FPrice v => Form.mk t a c r s d e v g x k
  | FTags v => Form.mk t a c r s d e p v x k
  end.

(** The file input (line 398): [{ ...f, cover: e.target.files[0] }] *)
Definition setCover (file : option string) (f : Form.t) : Form.t :=
  let '(Form.mk t a c r s d e p g x _) := f in
  Form.mk t a c r s d e p g x file.

(** [a.join(",")] *)
Fixpoint join (l : list string) : string :=
  match l with
  | [] => ""
  | [s] => s
  | s :: rest => s +:+ "," +:+ join rest
  end.

Section Handlers.
Context `{JsRuntime}.

(** [String(v)] for a price *)
Definition ToString (v : scalar) : string :=
  match v with
  | SNum x => NumberToString x
  | SStr s => s
  end.

(** The [extra] rows [startEdit] builds (lines 230-232): the entries of
    [work.extra] when it has a key, one empty row otherwise. *)
Definition rows_of_work (w : Work.t) : list elt :=
  match Work.extra w with
  | Some (kv :: kvs) => row_of <$> (kv :: kvs)
  | Some [] | None => [Obj emptyExtraRow]
  end.

(** [startEdit(work)] (lines 218-236) *)
Definition startEdit (w : Work.t) (s : App.t) : App.t :=
  App.mk
    (Form.mk
       (default "" (Work.title w))
       (default "" (name_of (Work.author w)))
       (default "" (name_of (Work.circle w)))
       (Boolean (Work.is_r18 w))
       (default "" (Work.summary w))
       (default "" (Work.purchase_date w))
       (default "" (name_of (Work.purchase_event w)))
       (from_option ToString "" (Work.price w))
       (join (default [] (Work.tags w)))
       (rows_of_work w)
       None)
    (Some (Work.id w))
    VForm.

(** [cancelEdit()] (lines 238-253) *)
Definition cancelEdit (s : App.t) : App.t :=
  App.mk Form.blank None (App.view s).

(** [submit(e)] (lines 176-216), as far as the form goes: once the
    request has been answered the form is reset and the edit ends; when
    [fetch] rejects, the handler stops before [setForm]. *)
Definition submit (answered : bool) (s : App.t) : App.t :=
  if answered then App.mk Form.blank None (App.view s) else s.

(** What the user can do to the form. *)
Inductive event :=
  | EUpdateField (u : field_update)
  | ESetCover (file : option string)
  | EUpdateExtra (index : nat) (p : prop) (v : string)
  | EAddExtraRow
  | ERemoveExtraRow (index : nat)
  | ESubmit (answered : bool)
  | EStartEdit (w : Work.t)
  | ECancelEdit.

Definition on_form (g : Form.t -> Form.t) (s : App.t) : App.t :=
  App.mk (g (App.form s)) (App.editingId s) (App.view s).

Definition handle (ev : event) (s : App.t) : App.t :=
  match ev with
  | EUpdateField u => on_form (updateField u) s
  | ESetCover file => on_form (setCover file) s
  | EUpdateExtra i p v => on_form (updateExtra i p v) s
  | EAddExtraRow => on_form addExtraRow s
  | ERemoveExtraRow i => on_form (removeExtraRow i) s
  | ESubmit answered => submit answered s
  | EStartEdit w => startEdit w s
  | ECancelEdit => cancelEdit s
  end.

(** The state after a sequence of events, oldest first. *)
Definition run (evs : list event) (s : App.t) : App.t :=
  fold_left (fun st ev => handle ev st) evs s.

(** The events the rendered form offers in state [s]: the inputs and
    the delete button of a row exist for the indices of the array. *)
Definition offered (s : App.t) (ev : event) : Prop :=
  match ev with
  | EUpdateExtra i _ _ | ERemoveExtraRow i =>
      i < length (Form.extra (App.form s))
  | _ => True
  end.

(** The states the component reaches through its rendered form. *)
Inductive reachable : App.t -> Prop :=
  | reach_initial : reachable App.initial
  | reach_step ev s : reachable s -> offered s ev -> reachable (handle ev s).

End Handlers.

(** An element that is a row object with both properties. *)
Definition complete (e : elt) : Prop :=
  ∃ k v, e = Obj (Row.mk (Some k) (Some v)).

(* ===================================================================== *)
(** ** The criteria as the specification words them *)
(* ===================================================================== *)

(** Nothing here calls a helper of the component: the bounds are read
    from the texts of the inputs, and the values from the work, by the
    runtime's conversions alone. *)
Module Spec.

(** The tri-state of the R-18 criterion. *)
Inductive r18 := Any | TrueOnly | FalseOnly.




Definition r18_ok (c : r18) (flag : option bool) : Prop :=
  match c with
  | Any => True
  | TrueOnly => flag = Some true
  | FalseOnly => flag ≠ Some true
  end.



Section Criteria.
Context `{JsRuntime}.

(** [term] is a substring of [s], letter case ignored: the lower-case
    form of [term] occurs in the lower-case form of [s]. *)
Definition isubstring (term s : string) : Prop :=
  ∃ pre post, toLowerCase s = pre +:+ toLowerCase term +:+ post.

(** A text criterion: not set, or the field is there and contains it. *)
Definition text_ok (crit : string) (field : option string) : Prop :=
  crit = "" ∨ ∃ s, field = Some s ∧ isubstring crit s.

(** The tags criterion: not set, or some tag of the work contains it. *)
Definition tags_ok (crit : string) (tags : option (list string)) : Prop :=
  crit = "" ∨ ∃ t, t ∈ default [] tags ∧ isubstring crit t.

(** The extra-text criterion, on the rendering of the mapping. *)
Definition extra_ok (crit : string) (extra : option (list (string * string))) : Prop :=
  crit = "" ∨ isubstring crit (JSON.stringify (default [] extra)).

(** The price of a work as a number, and its purchase date as an
    instant; a work without a date, or with an empty one, has none. *)
Definition price_of (w : Work.t) : option float := Number <$> Work.price w.

Definition instant_of (w : Work.t) : option float :=
  match Work.purchase_date w with
  | Some s => if decide (s = "") then None else Some (Date_getTime s)
  | None => None
  end.




End Criteria.

(** The value of the last row whose trimmed key is [k], if any. *)
Definition last_value (k : string) (rows : list (string * string)) : option string :=
  snd <$> last (filter (λ kv, Js.trim kv.1 = k) rows).


End Spec.

(* ===================================================================== *)
(** ** The guards of the callback, one by one *)
(* ===================================================================== *)

(** What each early [return false] of the callback lets through, as a
    proposition on the values the callback computes ([minPrice],
    [dateVal], ...). The proofs take [keep] apart along these. *)
Module Guards.

Record bounds := mk {
  title : string;
  authorName : string;
  circleName : string;
  summary : string;
  eventName : string;
  tags : string;
  extraText : string;
  priceMin : option float;
  priceMax : option float;
  dateFrom : option float;
  dateTo : option float;
  isR18 : Spec.r18
}.

(** [!(v < b)] past a bound that is set, on a value that is there. *)
Definition not_below (lo : option float) (x : option float) : Prop :=
  ∀ b, lo = Some b → ∃ v, x = Some v ∧ js_lt v b = false.

(** [!(v > b)] past a bound that is set, on a value that is there. *)
Definition not_above (hi : option float) (x : option float) : Prop :=
  ∀ b, hi = Some b → ∃ v, x = Some v ∧ js_gt v b = false.

Section Passes.
Context `{JsRuntime}.

Definition price_of (w : Work.t) : option float := Number <$> Work.price w.
Definition instant_of (w : Work.t) : option float := dateVal (Work.purchase_date w).

(** No guard fires. *)
Definition passes (c : bounds) (w : Work.t) : Prop :=
  Spec.text_ok (title c) (Work.title w) ∧
  Spec.text_ok (authorName c) (name_of (Work.author w)) ∧
  Spec.text_ok (circleName c) (name_of (Work.circle w)) ∧
  Spec.text_ok (summary c) (Work.summary w) ∧
  Spec.text_ok (eventName c) (name_of (Work.purchase_event w)) ∧
  Spec.tags_ok (tags c) (Work.tags w) ∧
  Spec.extra_ok (extraText c) (Work.extra w) ∧
  not_below (priceMin c) (price_of w) ∧
  not_above (priceMax c) (price_of w) ∧
  not_below (dateFrom c) (instant_of w) ∧
  not_above (dateTo c) (instant_of w) ∧
  Spec.r18_ok (isR18 c) (Work.is_r18 w).

(** The values the callback compares against. *)
Definition of_filters (f : Filters.t) : bounds :=
  mk (Filters.title f) (Filters.author f) (Filters.circle f)
     (Filters.summary f) (Filters.purchase_event f) (Filters.tags f)
     (Filters.extra f)
     (minPrice f) (maxPrice f) (fromDate f) (toDate f)
     (if String.eqb (Filters.is_r18 f) "all" then Spec.Any
      else if String.eqb (Filters.is_r18 f) "true" then Spec.TrueOnly
      else Spec.FalseOnly).

End Passes.

End Guards.

(* ===================================================================== *)
(** ** [updateFilter] (lines 132-135) *)
(* ===================================================================== *)

(** The [name] of an input wired to [updateFilter]. *)
Inductive filter_name :=
  | NTitle | NAuthor | NCircle | NSummary | NPurchaseEvent | NTags | NExtra
  | NPriceMin | NPriceMax | NDateFrom | NDateTo | NIsR18.

(** [{ ...f, [name]: value }] *)
Definition updateFilter (n : filter_name) (v : string) (f : Filters.t) : Filters.t :=
  let '(Filters.mk t a c s e g x lo hi from to r) := f in
  match n with
  | NTitle => Filters.mk v a c s e g x lo hi from to r
  | NAuthor => Filters.mk t v c s e g x lo hi from to r
  | NCircle => Filters.mk t a v s e g x lo hi from to r
  | NSummary => Filters.mk t a c v e g x lo hi from to r
  | NPurchaseEvent => Filters.mk t a c s v g x lo hi from to r
  | NTags => Filters.mk t a c s e v x lo hi from to r
  | NExtra => Filters.mk t a c s e g v lo hi from to r
  | NPriceMin => Filters.mk t a c s e g x v hi from to r
  | NPriceMax => Filters.mk t a c s e g x lo v from to r
  | NDateFrom => Filters.mk t a c s e g x lo hi v to r
  | NDateTo => Filters.mk t a c s e g x lo hi from v r
  | NIsR18 => Filters.mk t a c s e g x lo hi from to v
  end.

(* ===================================================================== *)
(** ** A small runtime and a small catalogue, for the examples *)
(* ===================================================================== *)

Module Demo.

(** The folding of the example runtime: A to Z are folded, every other
    byte is left as it is. It is [toLowerCase] on ASCII text; the
    examples have no other letters. *)
Lemma lower_empty (s : string) : Js.lower s = "" <-> s = "".
Proof. destruct s; simpl; split; congruence. Qed.

Definition digit_of (c : ascii) : option Z :=
  let n := nat_of_ascii c in
  if (48 <=? n)%nat && (n <=? 57)%nat then Some (Z.of_nat n - 48)%Z else None.

Fixpoint digits_from (acc : Z) (s : string) : option Z :=
  match s with
  | EmptyString => Some acc
  | String c rest =>
      match digit_of c with
      | Some d => digits_from (10 * acc + d)%Z rest
      | None => None
      end
  end.

(** The number an integer from [0] to [2^53] denotes; no number (NaN)
    for another integer. *)
Definition float_of_Z (z : Z) : float :=
  if ((0 <=? z) && (z <=? 2 ^ 53))%Z then PrimFloat.of_uint63 (Uint63.of_Z z)
  else nan.

(** [Number(s)] where [s] is white space around the decimal digits of
    an integer up to [2^53], or holds a letter other than those of a
    numeric literal (as ["free"] does): the integer, [0] for no digit,
    NaN for the letter. Signs, fractions, exponents and radix prefixes
    are not read; the examples have none. *)
Definition number_of_string (s : string) : float :=
  match Js.trim s with
  | EmptyString => float_of_Z 0
  | t => match digits_from 0 t with
         | Some z => float_of_Z z
         | None => nan
         end
  end.

Definition leap (y : Z) : bool :=
  ((y mod 4 =? 0) && negb (y mod 100 =? 0) || (y mod 400 =? 0))%Z.

Definition days_in_month (y m : Z) : Z :=
  (if m =? 2 then (if leap y then 29 else 28)
   else if (m =? 4) || (m =? 6) || (m =? 9) || (m =? 11) then 30 else 31)%Z.

(** Days from 1970-01-01 to the civil date [y-m-d]. *)
Definition days_from_civil (y m d : Z) : Z :=
  (let y' := if m <=? 2 then y - 1 else y in
   let era := y' / 400 in
   let yoe := y' - era * 400 in
   let doy := (153 * (if m <=? 2 then m + 9 else m - 3) + 2) / 5 + d - 1 in
   let doe := yoe * 365 + yoe / 4 - yoe / 100 + doy in
   era * 146097 + doe - 719468)%Z.

(** [new Date(s).getTime()] where [s] is a date [YYYY-MM-DD] from 1970
    on (midnight UTC), or is no date in any format (as ["someday"]):
    NaN for the latter. Other formats, and years before 1970, are not
    read; the examples have none. *)
Definition time_of_string (s : string) : float :=
  match s with
  | String y1 (String y2 (String y3 (String y4 (String "-"
      (String m1 (String m2 (String "-" (String d1 (String d2 "")))))))))
    =>
      match digits_from 0 (String y1 (String y2 (String y3 (String y4 ""))))%Z,
            digits_from 0 (String m1 (String m2 "")),
            digits_from 0 (String d1 (String d2 "")) with
      | Some y, Some m, Some d =>
          if ((1970 <=? y) && (1 <=? m) && (m <=? 12) && (1 <=? d)
              && (d <=? days_in_month y m))%Z
          then float_of_Z (days_from_civil y m d * 86400000)
          else nan
      | _, _, _ => nan
      end
  | _ => nan
  end.

(** [String(x)] where [x] is an integer from [0] to [2^53]; the
    examples convert no other number. *)
Definition string_of_number (x : float) : string :=
  match Prim2SF x with
  | S754_zero _ => "0"
  | S754_finite false m e =>
      if (0 <=? e)%Z then pretty (Z.pos m * 2 ^ e)%Z
      else if (Z.pos m mod 2 ^ (- e) =? 0)%Z then pretty (Z.pos m / 2 ^ (- e))%Z
      else "NaN"
  | _ => "NaN"
  end.

#[export] Instance runtime : JsRuntime := {
  StringToNumber := number_of_string;
  Date_getTime := time_of_string;
  NumberToString := string_of_number;
  toLowerCase := Js.lower;
  toLowerCase_empty := lower_empty;
  toLowerCase_ascii := fun s _ => eq_refl
}.

(** Three works: a priced one with tags and extras, an R-18 one whose
    price came as text, and one with nothing but a title. *)
Definition sample : Work.t :=
  Work.mk 1 (Some "Sample") (Some (Named.mk 1 "Taro")) None (Some false)
    (Some "A short story") (Some "2024-01-31") (Some (Named.mk 1 "C103"))
    (Some (SNum (float_of_Z 1200))) (Some ["comedy"; "drama"])
    (Some [("size", "B5"); ("pages", "24")]) None.

Definition adult : Work.t :=
  Work.mk 2 (Some "Night Tales") None (Some (Named.mk 7 "Moon Circle")) (Some true)
    None (Some "2023-08-12") None (Some (SStr "500")) (Some ["drama"])
    None (Some "/uploads/2.png").

Definition bare : Work.t :=
  Work.mk 3 (Some "Untitled") None None None None None None None None None None.

Definition catalogue : list Work.t := [sample; adult; bare].

(** The ideographic space U+3000 and the no-break space U+00A0, as
    UTF-8. *)
Definition wide_space : string :=
  String (ascii_of_nat 227) (String (ascii_of_nat 128) (String (ascii_of_nat 128) "")).

Definition nbsp : string :=
  String (ascii_of_nat 194) (String (ascii_of_nat 160) "").


(** A work whose extra attributes, as the server sent them, have the key
    ["__proto__"]. *)
Definition odd : Work.t :=
  Work.mk 4 (Some "Odd") None None None None None None None None
    (Some [("__proto__", "x")]) None.

(** The initial filters with one input filled in. *)
Definition on (n : filter_name) (v : string) : Filters.t :=
  updateFilter n v Filters.initial.

End Demo.

(* ===================================================================== *)
(** ** The list views that set a filter (lines 137-155) *)
(* ===================================================================== *)

(** The part of the component state the list views write. *)
Module Listing.
Record t := mk {
  filters : Filters.t;
  view : View
}.

(** The [useState] initial values (lines 12, 14-27). *)
Definition initial : t := mk Filters.initial VForm.
End Listing.

(** [applyAuthorFilter(name)]:
    [{ ...f, author: name || "", circle: "" }], then the works view. *)
Definition applyAuthorFilter (name : option string) (s : Listing.t) : Listing.t :=
  let '(Filters.mk t _ _ m e g x lo hi from to r) := Listing.filters s in
  Listing.mk (Filters.mk t (default "" name) "" m e g x lo hi from to r) VWorks.

(** [applyCircleFilter(name)]:
    [{ ...f, circle: name || "", author: "" }], then the works view. *)
Definition applyCircleFilter (name : option string) (s : Listing.t) : Listing.t :=
  let '(Filters.mk t _ _ m e g x lo hi from to r) := Listing.filters s in
  Listing.mk (Filters.mk t "" (default "" name) m e g x lo hi from to r) VWorks.

(** [applyEventFilter(name)]: [{ ...f, purchase_event: name || "" }] *)
Definition applyEventFilter (name : option string) (s : Listing.t) : Listing.t :=
  let '(Filters.mk t a c m _ g x lo hi from to r) := Listing.filters s in
  Listing.mk (Filters.mk t a c m (default "" name) g x lo hi from to r) VWorks.

(** [applyTagFilter(name)]: [{ ...f, tags: name || "" }] *)
Definition applyTagFilter (name : option string) (s : Listing.t) : Listing.t :=
  let '(Filters.mk t a c m e _ x lo hi from to r) := Listing.filters s in
  Listing.mk (Filters.mk t a c m e (default "" name) x lo hi from to r) VWorks.

(** [f[name]] for the name of a filter input. *)
Definition filter_value (n : filter_name) (f : Filters.t) : string :=
  match n with
  | NTitle => Filters.title f
  | NAuthor => Filters.author f
  | NCircle => Filters.circle f
  | NSummary => Filters.summary f
  | NPurchaseEvent => Filters.purchase_event f
  | NTags => Filters.tags f
  | NExtra => Filters.extra f
  | NPriceMin => Filters.price_min f
  | NPriceMax => Filters.price_max f
  | NDateFrom => Filters.date_from f
  | NDateTo => Filters.date_to f
  | NIsR18 => Filters.is_r18 f
  end.

(** The value of an input that imposes no constraint: the option "all"
    of the R-18 select, the empty text elsewhere. *)
Definition unset_value (n : filter_name) : string :=
  match n with
  | NIsR18 => "all"
  | _ => ""
  end.

(** The inputs whose text is searched for as a substring. *)
Definition is_text (n : filter_name) : bool :=
  match n with
  | NTitle | NAuthor | NCircle | NSummary | NPurchaseEvent | NTags | NExtra => true
  | _ => false
  end.

(* ===================================================================== *)
(** ** The own properties of an object, in order *)
(* ===================================================================== *)

(** An ordinary object enumerates its array-index keys first, in
    ascending order, then its other keys in the order of their creation
    (ECMA-262, [OrdinaryOwnPropertyKeys]); [JSON.stringify] follows that
    order and leaves out the properties whose value is [undefined]. *)
Module Props.

Definition digit (c : ascii) : option N :=
  let n := nat_of_ascii c in
  if (48 <=? n)%nat && (n <=? 57)%nat then Some (N.of_nat (n - 48)) else None.

Fixpoint digits (acc : N) (s : string) : option N :=
  match s with
  | EmptyString => Some acc
  | String c rest =>
      match digit c with
      | Some d => digits (10 * acc + d)%N rest
      | None => None
      end
  end.

(** The array index a key denotes: the key is the canonical decimal text
    of an integer from 0 to [2^32 - 2]. *)
Definition array_index (k : string) : option N :=
  match k with
  | EmptyString => None
  | String c rest =>
      if Ascii.eqb c "0" && negb (String.eqb rest "") then None
      else match digits 0 k with
           | Some n => if (n <? 4294967295)%N then Some n else None
           | None => None
           end
  end.

(** The value of an existing property is replaced where it stands;
    [None] when the object has no property [k]. *)
Fixpoint replace (k : string) (v : option string)
    (es : list (string * option string)) : option (list (string * option string)) :=
  match es with
  | [] => None
  | (k', v') :: rest =>
      if decide (k' = k) then Some ((k, v) :: rest)
      else match replace k v rest with
           | Some rest' => Some ((k', v') :: rest')
           | None => None
           end
  end.

(** A new array-index key goes before the first larger index and before
    every other key. *)
Fixpoint insert_index (n : N) (k : string) (v : option string)
    (es : list (string * option string)) : list (string * option string) :=
  match es with
  | [] => [(k, v)]
  | (k', v') :: rest =>
      match array_index k' with
      | Some n' =>
          if (n <? n')%N then (k, v) :: es
          else (k', v') :: insert_index n k v rest
      | None => (k, v) :: es
      end
  end.

(** [obj[k] = v] on an object created by [{}] (see [obj_set] for the key
    ["__proto__"]). *)
Definition set (k : string) (v : option string)
    (es : list (string * option string)) : list (string * option string) :=
  if decide (k = "__proto__") then es
  else match replace k v es with
       | Some es' => es'
       | None =>
           match array_index k with
           | Some n => insert_index n k v es
           | None => es ++ [(k, v)]
           end
       end.

(** The properties [JSON.stringify] writes. *)
Definition defined (es : list (string * option string)) : list (string * string) :=
  omap (fun kv => match kv.2 with Some v => Some (kv.1, v) | None => None end) es.

End Props.

(** [extraJson] with the order of its properties: the same loop as
    [extraJson_from], on the ordered object. *)
Definition extraJson_entries_step (obj : list (string * option string)) (e : elt)
    : option (list (string * option string)) :=
  match e with
  | Obj r =>
      match Row.key r with
      | Some k =>
          if Js.truthy (Js.trim k) then Some (Props.set (Js.trim k) (Row.value r) obj)
          else Some obj
      | None => None
      end
  | _ => None
  end.

Fixpoint extraJson_entries_from (obj : list (string * option string))
    (rows : list elt) : option (list (string * option string)) :=
  match rows with
  | [] => Some obj
  | e :: rest =>
      match extraJson_entries_step obj e with
      | Some obj' => extraJson_entries_from obj' rest
      | None => None
      end
  end.

Definition extraJson_entries (rows : list elt) : option (list (string * option string)) :=
  extraJson_entries_from [] rows.

(* ===================================================================== *)
(** ** The request of [submit] (lines 176-198) *)
(* ===================================================================== *)

(** A value of a [FormData] entry: a text or a file (by name). *)
Inductive part :=
  | PText (s : string)
  | PFile (name : string).

Module Request.
Record t := mk {
  method : string;
  url : string;
  (** the entries of the [FormData], in the order of the [append] calls *)
  body : list (string * part)
}.
End Request.

(** [appendIf(key, value)] for a text: appended unless it is empty. *)
Definition appendIf (key value : string) (fd : list (string * part))
    : list (string * part) :=
  if String.eqb value "" then fd else fd ++ [(key, PText value)].

(** The [FormData] [submit] fills (lines 178-194), given the properties
    of [extraJson]. *)
Definition submit_body (f : Form.t) (extra : list (string * option string))
    : list (string * part) :=
  let fd := [("title", PText (Form.title f))] in
  let fd := appendIf "author_name" (Form.author_name f) fd in
  let fd := appendIf "circle_name" (Form.circle_name f) fd in
  let fd := (fd ++ [("is_r18", PText (if Form.is_r18 f then "true" else "false"))])%list in
  let fd := appendIf "summary" (Form.summary f) fd in
  let fd := appendIf "purchase_date" (Form.purchase_date f) fd in
  let fd := appendIf "purchase_event_name" (Form.purchase_event_name f) fd in
  let fd := appendIf "price" (Form.price f) fd in
  let fd := appendIf "tags" (Form.tags f) fd in
  let fd := (fd ++ [("extra", PText (JSON.stringify (Props.defined extra)))])%list in
  match Form.cover f with
  | Some file => (fd ++ [("cover", PFile file)])%list
  | None => fd
  end.

(** [editingId] as a condition: [null] and the number 0 are falsy. *)
Definition editing (editingId : option Z) : option Z :=
  match editingId with
  | Some id => if (id =? 0)%Z then None else Some id
  | None => None
  end.

(** The request [submit] sends (lines 196-198), [API_BASE] given; [None]
    when [extraJson] threw. *)
Definition submit_request (API_BASE : string) (s : App.t) : option Request.t :=
  match extraJson_entries (Form.extra (App.form s)) with
  | Some extra =>
      Some (match editing (App.editingId s) with
            | Some id =>
                Request.mk "PUT" (API_BASE +:+ "/works/" +:+ pretty id)
                           (submit_body (App.form s) extra)
            | None =>
                Request.mk "POST" (API_BASE +:+ "/works")
                           (submit_body (App.form s) extra)
            end)
  | None => None
  end.

(** The events that edit the form without starting or ending an edit. *)
Definition is_edit `{JsRuntime} (ev : event) : Prop :=
  match ev with
  | EUpdateField _ | ESetCover _ | EUpdateExtra _ _ _ | EAddExtraRow
  | ERemoveExtraRow _ => True
  | ESubmit _ | EStartEdit _ | ECancelEdit => False
  end.

(** The order in which [submit] appends its keys. *)
Definition submit_keys : list string :=
  ["title"; "author_name"; "circle_name"; "is_r18"; "summary"; "purchase_date";
   "purchase_event_name"; "price"; "tags"; "extra"; "cover"].

(* ===================================================================== *)
(** ** Proof automation *)
(* ===================================================================== *)

(** Facts saying that a criterion that is not set is satisfied. *)
Create HintDb relax discriminated.

(** Compares the criteria of [f] with those of [f] after one field was
    cleared by [updateFilter]: the other eleven conjuncts are the same. *)
Ltac relax_criterion f :=
  destruct f; unfold Guards.passes, Guards.of_filters, updateFilter,
    minPrice, maxPrice, fromDate, toDate;
  cbn -[Spec.text_ok Spec.tags_ok Spec.extra_ok Guards.not_below Guards.not_above
        Spec.r18_ok dateVal String.eqb];
  intuition (auto with relax).

(* ===================================================================== *)
(** * Properties *)
(* ===================================================================== *)

(** ** Strings *)

Lemma truthy_true (s : string) : Js.truthy s = true ↔ s ≠ "".
Proof. destruct s; simpl; split; intros; congruence. Qed.

Lemma truthy_false (s : string) : Js.truthy s = false ↔ s = "".
Proof. destruct s; simpl; split; intros; congruence. Qed.

Lemma eqb_empty_truthy (s : string) : String.eqb s "" = negb (Js.truthy s).
Proof. destruct s; reflexivity. Qed.

Lemma startsWith_spec (s t : string) :
  Js.startsWith s t = true ↔ ∃ post, s = t +:+ post.
Proof.
  revert s. induction t as [|b t IH]; intros s; simpl.
  - split; [intros _; exists s; reflexivity | reflexivity].
  - destruct s as [|a s].
    + split; [discriminate | intros [post Hp]; discriminate].
    + rewrite andb_true_iff, Ascii.eqb_eq, IH. split.
      * intros [-> [post ->]]. exists post. reflexivity.
      * intros [post Hp]. injection Hp as -> ->. split; [reflexivity | eauto].
Qed.

Lemma includes_spec (s t : string) :
  Js.includes s t = true ↔ ∃ pre post, s = pre +:+ t +:+ post.
Proof.
  induction s as [|a s IH]; simpl; rewrite orb_true_iff, startsWith_spec.
  - split.
    + intros [[post Hp] | ?]; [|discriminate]. exists "", post. exact Hp.
    + intros [pre [post Hp]]. left. destruct pre; [|discriminate].
      exists post. exact Hp.
  - rewrite IH. split.
    + intros [[post Hp] | [pre [post Hp]]].
      * exists "", post. exact Hp.
      * exists (String a pre), post. simpl. rewrite Hp. reflexivity.
    + intros [pre [post Hp]]. destruct pre as [|a' pre]; simpl in Hp.
      * left. exists post. exact Hp.
      * right. injection Hp as -> ->. exists pre, post. reflexivity.
Qed.

Lemma includes_empty_base (t : string) : t ≠ "" → Js.includes "" t = false.
Proof. destruct t; [congruence | reflexivity]. Qed.

Example stringify_two_members :
  JSON.stringify [("size", "B5"); ("note", "a\b")] = "{" +:+ JSON.quote "size" +:+ ":"
    +:+ JSON.quote "B5" +:+ "," +:+ JSON.quote "note" +:+ ":" +:+ JSON.quote "a\b" +:+ "}".
Proof. reflexivity. Qed.

Example stringify_empty : JSON.stringify [] = "{}".
Proof. reflexivity. Qed.

Lemma append_cons (c : ascii) (s t : string) : String c s +:+ t = String c (s +:+ t).
Proof. reflexivity. Qed.

Lemma append_nil_r (s : string) : s +:+ "" = s.
Proof. induction s as [|c s IH]; [reflexivity|]. rewrite append_cons, IH. reflexivity. Qed.

Lemma append_assoc (a b c : string) : (a +:+ b) +:+ c = a +:+ b +:+ c.
Proof.
  induction a as [|x a IH]; [reflexivity|]. rewrite !append_cons, IH. reflexivity.
Qed.

Lemma append_empty (a b : string) : a +:+ b = "" → a = "" ∧ b = "".
Proof.
  destruct a; [intros Hb; split; [reflexivity | exact Hb]|].
  rewrite append_cons. discriminate.
Qed.

(** ** Lower case on ASCII text *)

Lemma lower_append (a b : string) : Js.lower (a +:+ b) = Js.lower a +:+ Js.lower b.
Proof.
  induction a as [|c a IH]; [reflexivity|].
  rewrite append_cons. cbn [Js.lower]. rewrite IH, append_cons. reflexivity.
Qed.

(** A part of the lower-case form is the lower-case form of a part. *)
Lemma lower_split (s a b : string) :
  Js.lower s = a +:+ b → ∃ s1 s2, s = s1 +:+ s2 ∧ Js.lower s1 = a ∧ Js.lower s2 = b.
Proof.
  revert s. induction a as [|c a IH]; intros s Hs.
  - exists "", s. split; [reflexivity | split; [reflexivity | exact Hs]].
  - destruct s as [|x s]; [discriminate|].
    rewrite append_cons in Hs. cbn [Js.lower] in Hs. injection Hs as Hc Hs.
    destruct (IH s Hs) as (s1 & s2 & -> & H1 & H2).
    exists (String x s1), s2. rewrite append_cons. cbn [Js.lower].
    rewrite Hc, H1. split; [reflexivity | split; [reflexivity | exact H2]].
Qed.

Lemma ascii_text_app (a b : string) :
  Js.ascii_text (a +:+ b) = Js.ascii_text a && Js.ascii_text b.
Proof.
  unfold Js.ascii_text. induction a as [|c a IH]; [reflexivity|].
  rewrite append_cons. cbn [list_ascii_of_string forallb]. rewrite IH, andb_assoc.
  reflexivity.
Qed.

Example lower_mixed : Js.lower "C103 DRAMA [z]" = "c103 drama [z]".
Proof. reflexivity. Qed.

(** ** [trim] *)

Lemma skip_space_length (s r : string) :
  Js.skip_space s = Some r → (String.length r < String.length s)%nat.
Proof.
  destruct s as [|c1 [|c2 [|c3 s]]]; simpl; try discriminate.
  - destruct (Js.is_space1 c1); [intros [= <-]; simpl; lia | discriminate].
  - destruct (Js.is_space1 c1); [intros [= <-]; simpl; lia|].
    destruct (Js.is_space2 c1 c2); [intros [= <-]; simpl; lia | discriminate].
  - destruct (Js.is_space1 c1); [intros [= <-]; simpl; lia|].
    destruct (Js.is_space2 c1 c2); [intros [= <-]; simpl; lia|].
    destruct (Js.is_space3 c1 c2 c3); [intros [= <-]; simpl; lia | discriminate].
Qed.

(** [trimStart] drops white-space characters while there is one in
    front. *)
Lemma trimStart_eq (s : string) :
  Js.trimStart s = match Js.skip_space s with
                   | Some r => Js.trimStart r
                   | None => s
                   end.
Proof.
  destruct s as [|c1 [|c2 [|c3 s]]]; simpl; try reflexivity.
  - destruct (Js.is_space1 c1); reflexivity.
  - destruct (Js.is_space1 c1); [reflexivity|].
    destruct (Js.is_space2 c1 c2); reflexivity.
  - destruct (Js.is_space1 c1); [reflexivity|].
    destruct (Js.is_space2 c1 c2); [reflexivity|].
    destruct (Js.is_space3 c1 c2 c3); reflexivity.
Qed.

(** The white-space character in front of [a] is in front of
    [a +:+ b]. *)
Lemma skip_space_app (a r b : string) :
  Js.skip_space a = Some r → Js.skip_space (a +:+ b) = Some (r +:+ b).
Proof.
  destruct a as [|c1 [|c2 [|c3 a]]]; simpl; try discriminate.
  - destruct (Js.is_space1 c1); [intros [= <-]; reflexivity | discriminate].
  - destruct (Js.is_space1 c1); [intros [= <-]; reflexivity|].
    destruct b as [|c3 b]; simpl;
      (destruct (Js.is_space2 c1 c2); [intros [= <-]; reflexivity | discriminate]).
  - destruct (Js.is_space1 c1); [intros [= <-]; reflexivity|].
    destruct (Js.is_space2 c1 c2); [intros [= <-]; reflexivity|].
    destruct (Js.is_space3 c1 c2 c3); [intros [= <-]; reflexivity | discriminate].
Qed.

Lemma string_length_ind (P : string → Prop) :
  (∀ s, (∀ r, (String.length r < String.length s)%nat → P r) → P s) → ∀ s, P s.
Proof.
  intros Hstep s. remember (String.length s) as n eqn:Hn.
  revert s Hn. induction (lt_wf n) as [n _ IH]. intros s ->.
  apply Hstep. intros r Hr. exact (IH _ Hr r eq_refl).
Qed.

Lemma blank_true (s : string) : Js.blank s = true ↔ Js.trimStart s = "".
Proof. unfold Js.blank. destruct (Js.trimStart s); split; congruence. Qed.

(** White space in front of a string goes with the white space the
    string starts with. *)
Lemma trimStart_app_blank (a b : string) :
  Js.trimStart a = "" → Js.trimStart (a +:+ b) = Js.trimStart b.
Proof.
  induction a as [a IH] using string_length_ind. intros Ha.
  rewrite trimStart_eq in Ha. destruct (Js.skip_space a) as [r|] eqn:Hs.
  - rewrite (trimStart_eq (a +:+ b)), (skip_space_app _ _ b Hs).
    apply IH; [exact (skip_space_length _ _ Hs) | exact Ha].
  - subst a. reflexivity.
Qed.

(** What [trimStart] answers has no white space in front. *)
Lemma trimStart_head (s : string) : Js.skip_space (Js.trimStart s) = None.
Proof.
  induction s as [s IH] using string_length_ind.
  rewrite trimStart_eq. destruct (Js.skip_space s) as [r|] eqn:Hs.
  - apply IH, (skip_space_length _ _ Hs).
  - exact Hs.
Qed.

(** What [trimEnd] drops is white space. *)
Lemma trimEnd_split (s : string) :
  ∃ tail, s = Js.trimEnd s +:+ tail ∧ Js.trimStart tail = "".
Proof.
  induction s as [|c s (tail & Hs & Ht)]; [exists ""; split; reflexivity|].
  cbn [Js.trimEnd]. destruct (Js.blank (String c s)) eqn:Hb.
  - exists (String c s). split; [reflexivity | apply blank_true, Hb].
  - exists tail. split; [rewrite append_cons, <- Hs; reflexivity | exact Ht].
Qed.

Lemma trimEnd_idempotent (s : string) : Js.trimEnd (Js.trimEnd s) = Js.trimEnd s.
Proof.
  induction s as [|c s IH]; [reflexivity|].
  cbn [Js.trimEnd]. destruct (Js.blank (String c s)) eqn:Hb; [reflexivity|].
  cbn [Js.trimEnd]. destruct (Js.blank (String c (Js.trimEnd s))) eqn:Hb'.
  - exfalso. destruct (trimEnd_split s) as (tail & Hs & Ht).
    apply blank_true in Hb'.
    assert (Js.trimStart (String c s) = "") as Hall.
    { rewrite Hs at 1. rewrite <- append_cons.
      rewrite (trimStart_app_blank _ _ Hb'). exact Ht. }
    apply blank_true in Hall. congruence.
  - rewrite IH. reflexivity.
Qed.

(** A string without white space in front has none after [trimEnd]. *)
Lemma trimEnd_head (s : string) :
  Js.skip_space s = None → Js.skip_space (Js.trimEnd s) = None.
Proof.
  intros Hs. destruct (trimEnd_split s) as (tail & Hsplit & _).
  destruct (Js.skip_space (Js.trimEnd s)) as [r|] eqn:He; [|reflexivity].
  apply (skip_space_app _ _ tail) in He. rewrite <- Hsplit in He. congruence.
Qed.

(** A trimmed text has no white space left to trim. *)
Lemma trim_idempotent (s : string) : Js.trim (Js.trim s) = Js.trim s.
Proof.
  unfold Js.trim.
  rewrite (trimStart_eq (Js.trimEnd _)), (trimEnd_head _ (trimStart_head s)).
  apply trimEnd_idempotent.
Qed.

(** [trim] answers the empty string exactly on the strings made of white
    space only. *)
Lemma trim_empty (s : string) : Js.trim s = "" ↔ Js.blank s = true.
Proof.
  rewrite blank_true. unfold Js.trim. split.
  - intros He. destruct (Js.trimStart s) as [|c u] eqn:Hu; [reflexivity|].
    cbn [Js.trimEnd] in He. destruct (Js.blank (String c u)) eqn:Hb; [|discriminate].
    apply blank_true in Hb. pose proof (trimStart_head s) as Hh. rewrite Hu in Hh.
    rewrite trimStart_eq, Hh in Hb. discriminate.
  - intros ->. reflexivity.
Qed.

Example trim_both_ends : Js.trim "  size of book  " = "size of book".
Proof. reflexivity. Qed.

(** The ideographic space U+3000 and the no-break space U+00A0 are
    trimmed; the bytes of other characters are not. *)
Example trim_wide :
  Js.trim (Demo.wide_space +:+ "size" +:+ Demo.nbsp +:+ " ") = "size".
Proof. reflexivity. Qed.

(** U+4000 (E4 80 80) shares its last bytes with U+3000 and is kept. *)
Example trim_keeps_letters :
  Js.trim (String (ascii_of_nat 228) (String (ascii_of_nat 128) (String (ascii_of_nat 128) " ")))
  = String (ascii_of_nat 228) (String (ascii_of_nat 128) (String (ascii_of_nat 128) "")).
Proof. reflexivity. Qed.

(** ** [JSON.stringify] *)

(** Every member is part of the text, as ["key":"value"]. *)
Lemma members_part (kv : string * string) (kvs : list (string * string)) :
  kv ∈ kvs → ∃ pre post, JSON.members kvs = pre +:+ JSON.member kv +:+ post.
Proof.
  induction kvs as [|kv' kvs IH]; [intros Hin; inversion Hin|].
  rewrite elem_of_cons. intros [-> | Hin].
  - destruct kvs as [|kv2 kvs].
    + exists "", "". cbn [JSON.members]. rewrite append_nil_r. reflexivity.
    + exists "", ("," +:+ JSON.members (kv2 :: kvs)). reflexivity.
  - destruct (IH Hin) as (pre & post & Hm). destruct kvs as [|kv2 kvs]; [inversion Hin|].
    exists (JSON.member kv' +:+ "," +:+ pre), post.
    change (JSON.members (kv' :: kv2 :: kvs))
      with (JSON.member kv' +:+ "," +:+ JSON.members (kv2 :: kvs)).
    rewrite Hm, !append_assoc. reflexivity.
Qed.

(** ** Numbers *)

Lemma SFcompare_refl (x : spec_float) :
  SFcompare x x = match x with S754_nan => None | _ => Some Eq end.
Proof.
  destruct x as [s|s| |s m e]; try destruct s; simpl; try reflexivity;
    rewrite Z.compare_refl, Pos.compare_cont_refl; reflexivity.
Qed.


Lemma js_lt_irrefl (x : float) : js_lt x x = false.
Proof.
  unfold js_lt. rewrite FloatAxioms.ltb_spec. unfold SFltb. rewrite SFcompare_refl.
  destruct (Prim2SF x); reflexivity.
Qed.

Lemma js_gt_irrefl (x : float) : js_gt x x = false.
Proof. apply js_lt_irrefl. Qed.





(** ** The callback, criterion by criterion *)

Section FilterFacts.
Context `{JsRuntime}.

Lemma contains_spec (s term : string) :
  contains (Some s) term = true ↔ Spec.isubstring term s.
Proof. unfold contains, q, Spec.isubstring. simpl. apply includes_spec. Qed.

Lemma contains_missing (term : string) :
  term ≠ "" → contains None term = false.
Proof.
  intros Hne. unfold contains, q. simpl.
  rewrite (proj2 (toLowerCase_empty "") eq_refl). apply includes_empty_base.
  rewrite toLowerCase_empty. exact Hne.
Qed.

Lemma isubstring_of_empty (term : string) :
  term ≠ "" → ¬ Spec.isubstring term "".
Proof.
  intros Hne Hsub. apply contains_spec in Hsub.
  assert (contains (Some "") term = false) as Hf by (apply (contains_missing term Hne)).
  congruence.
Qed.

(** On ASCII text, [term] is contained with the letter case ignored
    exactly when a part of [s] is [term] up to the case of A to Z. *)
Lemma isubstring_ascii (term s : string) :
  Js.ascii_text term = true → Js.ascii_text s = true →
  (Spec.isubstring term s ↔
   ∃ pre mid post, s = pre +:+ mid +:+ post ∧ Js.lower mid = Js.lower term).
Proof.
  intros Ht Hs. unfold Spec.isubstring.
  rewrite (toLowerCase_ascii term Ht), (toLowerCase_ascii s Hs). split.
  - intros (pre' & post' & He).
    destruct (lower_split _ _ _ He) as (pre & rest & -> & _ & Hrest).
    destruct (lower_split _ _ _ Hrest) as (mid & post & -> & Hmid & _).
    exists pre, mid, post. split; [reflexivity | exact Hmid].
  - intros (pre & mid & post & -> & Hmid).
    exists (Js.lower pre), (Js.lower post). rewrite !lower_append, Hmid. reflexivity.
Qed.

(** A text criterion returns early exactly when it is not satisfied. *)
Lemma text_early_return (crit : string) (field : option string) :
  Js.truthy crit && negb (contains field crit) = false ↔ Spec.text_ok crit field.
Proof.
  unfold Spec.text_ok. destruct (Js.truthy crit) eqn:Ht; simpl.
  - apply truthy_true in Ht. rewrite negb_false_iff. split.
    + intros Hc. right. destruct field as [s|].
      * exists s. split; [reflexivity | apply contains_spec, Hc].
      * rewrite (contains_missing crit Ht) in Hc. discriminate.
    + intros [He | [s [-> Hs]]]; [congruence | apply contains_spec, Hs].
  - apply truthy_false in Ht. split; [intros _; left; exact Ht | reflexivity].
Qed.

Lemma tags_early_return (crit : string) (tags : option (list string)) :
  Js.truthy crit
    && negb (existsb (fun t => contains (Some t) crit) (default [] tags)) = false
  ↔ Spec.tags_ok crit tags.
Proof.
  unfold Spec.tags_ok. destruct (Js.truthy crit) eqn:Ht; simpl.
  - apply truthy_true in Ht. rewrite negb_false_iff, existsb_exists. split.
    + intros [t [Hin Hc]]. right. exists t.
      split; [apply list_elem_of_In, Hin | apply contains_spec, Hc].
    + intros [He | [t [Hin Hs]]]; [congruence |].
      exists t. split; [apply list_elem_of_In, Hin | apply contains_spec, Hs].
  - apply truthy_false in Ht. split; [intros _; left; exact Ht | reflexivity].
Qed.

Lemma extra_early_return (crit : string) (extra : option (list (string * string))) :
  Js.truthy crit
    && negb (contains (Some (JSON.stringify (default [] extra))) crit) = false
  ↔ Spec.extra_ok crit extra.
Proof.
  unfold Spec.extra_ok. destruct (Js.truthy crit) eqn:Ht; simpl.
  - apply truthy_true in Ht. rewrite negb_false_iff, contains_spec.
    split; [intros Hs; right; exact Hs | intros [He | Hs]; [congruence | exact Hs]].
  - apply truthy_false in Ht. split; [intros _; left; exact Ht | reflexivity].
Qed.

Lemma lower_early_return (lo : option float) (x : option float) :
  match lo with
  | Some b => match x with None => true | Some v => js_lt v b end
  | None => false
  end = false ↔ Guards.not_below lo x.
Proof.
  unfold Guards.not_below. destruct lo as [b|]; [|split; [intros _ ? [=] | reflexivity]].
  destruct x as [v|]; split.
  - intros Hv ? [= <-]. exists v. split; [reflexivity | exact Hv].
  - intros Hb. destruct (Hb b eq_refl) as [v' [[= <-] Hv]]. exact Hv.
  - discriminate.
  - intros Hb. destruct (Hb b eq_refl) as [v' [[=] _]].
Qed.

Lemma upper_early_return (hi : option float) (x : option float) :
  match hi with
  | Some b => match x with None => true | Some v => js_gt v b end
  | None => false
  end = false ↔ Guards.not_above hi x.
Proof.
  unfold Guards.not_above. destruct hi as [b|]; [|split; [intros _ ? [=] | reflexivity]].
  destruct x as [v|]; split.
  - intros Hv ? [= <-]. exists v. split; [reflexivity | exact Hv].
  - intros Hb. destruct (Hb b eq_refl) as [v' [[= <-] Hv]]. exact Hv.
  - discriminate.
  - intros Hb. destruct (Hb b eq_refl) as [v' [[=] _]].
Qed.

Lemma r18_early_return (sel : string) (flag : option bool) :
  negb (String.eqb sel "all")
    && negb (Bool.eqb (Boolean flag) (String.eqb sel "true")) = false
  ↔ Spec.r18_ok (if String.eqb sel "all" then Spec.Any
                 else if String.eqb sel "true" then Spec.TrueOnly
                 else Spec.FalseOnly) flag.
Proof.
  destruct (String.eqb sel "all"); simpl; [tauto|].
  destruct (String.eqb sel "true"), flag as [[]|]; simpl;
    split; intros; congruence.
Qed.

Lemma early_return_iff (c k : bool) (P Q : Prop) :
  (c = false ↔ P) → (k = true ↔ Q) →
  ((if c then false else k) = true ↔ P ∧ Q).
Proof. destruct c; intros [H1 H2] [H3 H4]; split; intros; intuition congruence. Qed.

Lemma price_case (lo : option float) (p : option scalar) (cmp : float → float → bool) :
  match lo with
  | Some b => match p with None => true | Some v => cmp (Number v) b end
  | None => false
  end =
  match lo with
  | Some b => match Number <$> p with None => true | Some v => cmp v b end
  | None => false
  end.
Proof. destruct lo, p; reflexivity. Qed.

(** The callback keeps a work exactly when none of its guards fires. *)
Lemma keep_true_iff (f : Filters.t) (w : Work.t) :
  keep f w = true ↔ Guards.passes (Guards.of_filters f) w.
Proof.
  unfold keep, Guards.passes, Guards.of_filters, Guards.price_of, Guards.instant_of.
  cbn [Guards.title Guards.authorName Guards.circleName Guards.summary Guards.eventName
       Guards.tags Guards.extraText Guards.priceMin Guards.priceMax Guards.dateFrom
       Guards.dateTo Guards.isR18].
  rewrite (price_case (minPrice f) (Work.price w) js_lt).
  rewrite (price_case (maxPrice f) (Work.price w) js_gt).
  repeat (apply early_return_iff;
          [first [ apply text_early_return | apply tags_early_return
                 | apply extra_early_return | apply lower_early_return
                 | apply upper_early_return ] |]).
  rewrite <- r18_early_return.
  destruct (negb (Filters.is_r18 f =? "all")%string
            && negb (Bool.eqb (Boolean (Work.is_r18 w))
                              (Filters.is_r18 f =? "true")%string));
    split; congruence.
Qed.

Lemma keep_false_iff (f : Filters.t) (w : Work.t) :
  keep f w = false ↔ ¬ Guards.passes (Guards.of_filters f) w.
Proof.
  rewrite <- keep_true_iff. destruct (keep f w); split; congruence.
Qed.

End FilterFacts.

(** ** Relaxing one criterion *)

Lemma text_ok_unset `{JsRuntime} (field : option string) : Spec.text_ok "" field.
Proof. left. reflexivity. Qed.

Lemma tags_ok_unset `{JsRuntime} (tags : option (list string)) : Spec.tags_ok "" tags.
Proof. left. reflexivity. Qed.

Lemma extra_ok_unset `{JsRuntime} (extra : option (list (string * string))) : Spec.extra_ok "" extra.
Proof. left. reflexivity. Qed.

Lemma not_below_unset (x : option float) : Guards.not_below None x.
Proof. intros b [=]. Qed.

Lemma not_above_unset (x : option float) : Guards.not_above None x.
Proof. intros b [=]. Qed.

#[local] Hint Resolve text_ok_unset tags_ok_unset extra_ok_unset
  not_below_unset not_above_unset : relax.

Lemma bool_eq_of_iff (a b : bool) : (a = true ↔ b = true) → a = b.
Proof. destruct a, b; intros [H1 H2]; try reflexivity; [symmetry|]; auto. Qed.


Section Relax.
Context `{JsRuntime}.

Lemma relax_tags (f : Filters.t) (w : Work.t) :
  Guards.passes (Guards.of_filters f) w ↔
  Spec.tags_ok (Filters.tags f) (Work.tags w)
  ∧ Guards.passes (Guards.of_filters (updateFilter NTags "" f)) w.
Proof. relax_criterion f. Qed.

Lemma relax_extra (f : Filters.t) (w : Work.t) :
  Guards.passes (Guards.of_filters f) w ↔
  Spec.extra_ok (Filters.extra f) (Work.extra w)
  ∧ Guards.passes (Guards.of_filters (updateFilter NExtra "" f)) w.
Proof. relax_criterion f. Qed.

Lemma relax_price_min (f : Filters.t) (w : Work.t) :
  Guards.passes (Guards.of_filters f) w ↔
  Guards.not_below (minPrice f) (Guards.price_of w)
  ∧ Guards.passes (Guards.of_filters (updateFilter NPriceMin "" f)) w.
Proof. relax_criterion f. Qed.

Lemma relax_price_max (f : Filters.t) (w : Work.t) :
  Guards.passes (Guards.of_filters f) w ↔
  Guards.not_above (maxPrice f) (Guards.price_of w)
  ∧ Guards.passes (Guards.of_filters (updateFilter NPriceMax "" f)) w.
Proof. relax_criterion f. Qed.

Lemma relax_date_from (f : Filters.t) (w : Work.t) :
  Guards.passes (Guards.of_filters f) w ↔
  Guards.not_below (fromDate f) (Guards.instant_of w)
  ∧ Guards.passes (Guards.of_filters (updateFilter NDateFrom "" f)) w.
Proof. relax_criterion f. Qed.

Lemma relax_date_to (f : Filters.t) (w : Work.t) :
  Guards.passes (Guards.of_filters f) w ↔
  Guards.not_above (toDate f) (Guards.instant_of w)
  ∧ Guards.passes (Guards.of_filters (updateFilter NDateTo "" f)) w.
Proof. relax_criterion f. Qed.


End Relax.

(** ** The filter as a whole *)

Section FilterClaims.
Context `{JsRuntime}.

Lemma filteredWorks_cons (w : Work.t) (works : list Work.t) (f : Filters.t) :
  filteredWorks (w :: works) f =
  if keep f w then w :: filteredWorks works f else filteredWorks works f.
Proof. reflexivity. Qed.

(** *** The guards against the criteria of the specification *)















(** C2. With no criterion set (every text empty, no price or date
    bound, R-18 on "all") the filter returns its input list as it is. *)
Theorem filteredWorks_no_criteria (works : list Work.t) :
  filteredWorks works Filters.initial = works.
Proof.
  induction works as [|w works IH]; [reflexivity|].
  rewrite filteredWorks_cons, IH. reflexivity.
Qed.

(** The price bounds relative to the other criteria. *)
Lemma price_bounds_relative (f : Filters.t) (w : Work.t) :
  (∀ lo, minPrice f = Some lo →
     match Work.price w with
     | None => keep f w = false
     | Some p =>
         (js_lt (Number p) lo = true → keep f w = false)
         ∧ (js_lt (Number p) lo = false →
              keep f w = keep (updateFilter NPriceMin "" f) w)
         ∧ (Number p = lo → keep f w = keep (updateFilter NPriceMin "" f) w)
     end)
  ∧ (∀ hi, maxPrice f = Some hi →
     match Work.price w with
     | None => keep f w = false
     | Some p =>
         (js_gt (Number p) hi = true → keep f w = false)
         ∧ (js_gt (Number p) hi = false →
              keep f w = keep (updateFilter NPriceMax "" f) w)
         ∧ (Number p = hi → keep f w = keep (updateFilter NPriceMax "" f) w)
     end).
Proof.
  split.
  - intros lo Hlo.
    assert (Hgen : ∀ p, Work.price w = Some p → js_lt (Number p) lo = false →
              keep f w = keep (updateFilter NPriceMin "" f) w).
    { intros p Hp Hlt. apply bool_eq_of_iff.
      rewrite !keep_true_iff, relax_price_min.
      enough (Guards.not_below (minPrice f) (Guards.price_of w)) by tauto.
      intros b Hb. exists (Number p). unfold Guards.price_of. rewrite Hp.
      split; [reflexivity | congruence]. }
    destruct (Work.price w) as [p|] eqn:Hp.
    + split; [|split].
      * intros Hlt. apply keep_false_iff. rewrite relax_price_min.
        intros [Hb _]. destruct (Hb lo Hlo) as [v [Hv Hnlt]].
        unfold Guards.price_of in Hv. rewrite Hp in Hv. simpl in Hv. congruence.
      * apply Hgen. reflexivity.
      * intros Heq. apply (Hgen p eq_refl). rewrite Heq. apply js_lt_irrefl.
    + apply keep_false_iff. rewrite relax_price_min.
      intros [Hb _]. destruct (Hb lo Hlo) as [v [Hv _]].
      unfold Guards.price_of in Hv. rewrite Hp in Hv. discriminate.
  - intros hi Hhi.
    assert (Hgen : ∀ p, Work.price w = Some p → js_gt (Number p) hi = false →
              keep f w = keep (updateFilter NPriceMax "" f) w).
    { intros p Hp Hgt. apply bool_eq_of_iff.
      rewrite !keep_true_iff, relax_price_max.
      enough (Guards.not_above (maxPrice f) (Guards.price_of w)) by tauto.
      intros b Hb. exists (Number p). unfold Guards.price_of. rewrite Hp.
      split; [reflexivity | congruence]. }
    destruct (Work.price w) as [p|] eqn:Hp.
    + split; [|split].
      * intros Hgt. apply keep_false_iff. rewrite relax_price_max.
        intros [Hb _]. destruct (Hb hi Hhi) as [v [Hv Hngt]].
        unfold Guards.price_of in Hv. rewrite Hp in Hv. simpl in Hv. congruence.
      * apply Hgen. reflexivity.
      * intros Heq. apply (Hgen p eq_refl). rewrite Heq. apply js_gt_irrefl.
    + apply keep_false_iff. rewrite relax_price_max.
      intros [Hb _]. destruct (Hb hi Hhi) as [v [Hv _]].
      unfold Guards.price_of in Hv. rewrite Hp in Hv. discriminate.
Qed.


Lemma keep_initial (w : Work.t) : keep Filters.initial w = true.
Proof. reflexivity. Qed.

Lemma minPrice_set (v : string) (f : Filters.t) :
  v ≠ "" → minPrice (updateFilter NPriceMin v f) = Some (StringToNumber v).
Proof.
  intros Hne. destruct f. unfold minPrice. cbn [updateFilter Filters.price_min].
  apply String.eqb_neq in Hne. rewrite Hne. reflexivity.
Qed.

Lemma maxPrice_set (v : string) (f : Filters.t) :
  v ≠ "" → maxPrice (updateFilter NPriceMax v f) = Some (StringToNumber v).
Proof.
  intros Hne. destruct f. unfold maxPrice. cbn [updateFilter Filters.price_max].
  apply String.eqb_neq in Hne. rewrite Hne. reflexivity.
Qed.

(** C3. The price bounds are inclusive and a missing price fails a set
    bound. When [price_min] is set, a work without a price is excluded,
    a work whose price is strictly below the bound is excluded, and a
    work whose price is not below the bound (in particular one priced
    exactly at it) is not excluded by the bound: the filter decides on
    it as it does with the bound cleared. Symmetrically for
    [price_max] and prices strictly above it. With the bound as the only
    criterion, a work priced at the bound, or on its right side, is
    kept. *)
Theorem price_bounds_inclusive (f : Filters.t) (w : Work.t) :

  (∀ lo, minPrice f = Some lo →
     match Work.price w with
     | None => keep f w = false
     | Some p =>
         (js_lt (Number p) lo = true → keep f w = false)
         ∧ (js_lt (Number p) lo = false →
              keep f w = keep (updateFilter NPriceMin "" f) w)
         ∧ (Number p = lo → keep f w = keep (updateFilter NPriceMin "" f) w)
     end)
  ∧ (∀ hi, maxPrice f = Some hi →
     match Work.price w with
     | None => keep f w = false
     | Some p =>
         (js_gt (Number p) hi = true → keep f w = false)
         ∧ (js_gt (Number p) hi = false →
              keep f w = keep (updateFilter NPriceMax "" f) w)
         ∧ (Number p = hi → keep f w = keep (updateFilter NPriceMax "" f) w)
     end)
  ∧ (∀ v p, v ≠ "" → Work.price w = Some p →
       (js_lt (Number p) (StringToNumber v) = false →
          keep (updateFilter NPriceMin v Filters.initial) w = true)
       ∧ (Number p = StringToNumber v →
          keep (updateFilter NPriceMin v Filters.initial) w = true)
       ∧ (js_gt (Number p) (StringToNumber v) = false →
          keep (updateFilter NPriceMax v Filters.initial) w = true)
       ∧ (Number p = StringToNumber v →
          keep (updateFilter NPriceMax v Filters.initial) w = true)).
Proof.
  destruct (price_bounds_relative f w) as [Hmin Hmax].
  split; [exact Hmin|]. split; [exact Hmax|].
  intros v p Hne Hp.
  pose proof (proj1 (price_bounds_relative (updateFilter NPriceMin v Filters.initial) w)
                _ (minPrice_set v Filters.initial Hne)) as Hlo.
  pose proof (proj2 (price_bounds_relative (updateFilter NPriceMax v Filters.initial) w)
                _ (maxPrice_set v Filters.initial Hne)) as Hhi.
  rewrite Hp in Hlo, Hhi.
  destruct Hlo as (_ & Hlo & Hlo'), Hhi as (_ & Hhi & Hhi').
  repeat split; intros Hc.
  - rewrite (Hlo Hc). apply keep_initial.
  - rewrite (Hlo' Hc). apply keep_initial.
  - rewrite (Hhi Hc). apply keep_initial.
  - rewrite (Hhi' Hc). apply keep_initial.
Qed.

End FilterClaims.

(** ** The criteria one by one *)

Section CriterionClaims.
Context `{JsRuntime}.




Lemma date_from_set (f : Filters.t) :
  Filters.date_from f ≠ "" →
  fromDate f = Some (Date_getTime (Filters.date_from f)).
Proof.
  intros Hne. apply truthy_true in Hne. unfold fromDate, dateVal.
  rewrite Hne. reflexivity.
Qed.


Lemma instant_of_dated (w : Work.t) (s : string) :
  Work.purchase_date w = Some s → s ≠ "" →
  Guards.instant_of w = Some (Date_getTime s).
Proof.
  intros Hw Hne. apply truthy_true in Hne. unfold Guards.instant_of, dateVal.
  rewrite Hw, Hne. reflexivity.
Qed.








(** Every attribute is part of the rendering, key and value quoted. *)
Lemma stringify_member (k v : string) (kvs : list (string * string)) :
  (k, v) ∈ kvs →
  ∃ pre post, JSON.stringify kvs = pre +:+ JSON.quote k +:+ ":" +:+ JSON.quote v +:+ post.
Proof.
  intros Hin. destruct (members_part (k, v) kvs Hin) as (pre & post & Hm).
  exists ("{" +:+ pre), (post +:+ "}"). unfold JSON.stringify. rewrite Hm.
  unfold JSON.member. cbn [fst snd]. rewrite !append_assoc. reflexivity.
Qed.


End CriterionClaims.

(** ** The mapping built from the form's rows *)

Lemma extraJson_from_app (obj : gmap string (option string)) (l1 l2 : list elt) :
  extraJson_from obj (l1 ++ l2) =
  match extraJson_from obj l1 with
  | Some obj' => extraJson_from obj' l2
  | None => None
  end.
Proof.
  revert obj. induction l1 as [|e l1 IH]; intros obj; simpl; [reflexivity|].
  destruct (extraJson_step obj e); [apply IH | reflexivity].
Qed.

Lemma extraJson_step_row (obj : gmap string (option string)) (kv : string * string) :
  extraJson_step obj (row_of kv) =
  Some (if Js.truthy (Js.trim kv.1) then obj_set (Js.trim kv.1) (Some kv.2) obj
        else obj).
Proof. unfold extraJson_step, row_of. simpl. destruct (Js.truthy _); reflexivity. Qed.

Lemma last_value_snoc (k : string) (rows : list (string * string)) (kv : string * string) :
  Spec.last_value k (rows ++ [kv]) =
  if decide (Js.trim kv.1 = k) then Some kv.2 else Spec.last_value k rows.
Proof.
  unfold Spec.last_value. rewrite filter_app, filter_cons, filter_nil.
  destruct (decide (Js.trim kv.1 = k)).
  - rewrite last_snoc. reflexivity.
  - rewrite app_nil_r. reflexivity.
Qed.

Lemma obj_set_lookup (k k' : string) (v : option string)
    (obj : gmap string (option string)) :
  obj_set k v obj !! k' =
  if decide (k = k' ∧ k ≠ "__proto__") then Some v else obj !! k'.
Proof.
  unfold obj_set. destruct (decide (k = "__proto__")) as [->|Hk].
  - destruct (decide _) as [[_ Hne]|_]; [congruence | reflexivity].
  - rewrite lookup_insert. destruct (decide (k = k')) as [->|Hne].
    + destruct (decide _) as [_|Hn]; [reflexivity | tauto].
    + destruct (decide _) as [[He _]|_]; [congruence | reflexivity].
Qed.

(** X1. The rows a user submits always produce a mapping. For every key
    other than the empty one and ["__proto__"] it holds the value of the
    last row with that trimmed key; those two keys are never present. *)
Lemma extraJson_submitted (rows : list (string * string)) :
  ∃ m, extraJson (row_of <$> rows) = Some m
       ∧ ∀ k, m !! k =
              if decide (k = "" ∨ k = "__proto__") then None
              else Some <$> Spec.last_value k rows.
Proof.
  induction rows as [|kv rows IH] using rev_ind.
  - exists ∅. split; [reflexivity|]. intros k. rewrite lookup_empty.
    destruct (decide _); reflexivity.
  - destruct IH as [m [Hm Hlook]]. unfold extraJson in *.
    rewrite fmap_app, extraJson_from_app, Hm.
    change (row_of <$> [kv]) with [row_of kv]. cbn [extraJson_from].
    rewrite extraJson_step_row. eexists. split; [reflexivity|].
    intros k. rewrite last_value_snoc.
    destruct (Js.truthy (Js.trim kv.1)) eqn:Ht.
    + apply truthy_true in Ht. rewrite obj_set_lookup, Hlook.
      repeat destruct (decide _); simpl; try reflexivity; exfalso; intuition congruence.
    + apply truthy_false in Ht. rewrite Hlook.
      repeat destruct (decide _); simpl; try reflexivity; exfalso; intuition congruence.
Qed.

(** A mapping has each key once. *)
Lemma extraJson_keys_NoDup (rows : list elt) (m : gmap string (option string)) :
  extraJson rows = Some m → NoDup (map_to_list m).*1.
Proof. intros _. apply NoDup_fst_map_to_list. Qed.

(** Rows whose key is empty or white space change nothing. *)
Lemma extraJson_blank_key (pre post : list (string * string)) (kv : string * string) :
  Js.trim kv.1 = "" →
  extraJson (row_of <$> (pre ++ kv :: post)%list)
  = extraJson (row_of <$> (pre ++ post)%list).
Proof.
  intros Hblank. unfold extraJson.
  rewrite !fmap_app, !extraJson_from_app, fmap_cons.
  destruct (extraJson_from ∅ (row_of <$> pre)) as [obj|]; [|reflexivity].
  cbn [extraJson_from]. rewrite extraJson_step_row, Hblank. reflexivity.
Qed.

(** C8. The rule "the last row of a key wins" fails on the key
    ["__proto__"]. Two submitted rows share that trimmed key, the last of
    them with the value ["b"], so ["b"] is the value the rule stores
    under the key; the mapping [extraJson] builds holds nothing under
    the key, and is in fact empty. *)
Theorem extraJson_drops_proto :
  let rows := [("__proto__", "a"); (" __proto__ ", "b")] in
  Spec.last_value "__proto__" rows = Some "b"
  ∧ (∃ m, extraJson (row_of <$> rows) = Some m ∧ m !! "__proto__" = None)
  ∧ extraJson (row_of <$> rows) = Some ∅.
Proof.
  split; [reflexivity|]. split; [|reflexivity].
  exists ∅. split; reflexivity.
Qed.

(** ** The row list of the form *)

Open Scope nat_scope.

Lemma Arr_spread_length (a : list elt) : length (Arr.spread a) = length a.
Proof. unfold Arr.spread. apply length_fmap. Qed.

Lemma Arr_set_length (a : list elt) (i : nat) (x : elt) :
  length (Arr.set a i x) = max (length a) (S i).
Proof.
  unfold Arr.set. destruct (decide (i < length a)).
  - rewrite length_insert. lia.
  - rewrite !length_app, length_replicate. simpl. lia.
Qed.

Lemma updateExtra_extra (i : nat) (p : prop) (v : string) (f : Form.t) :
  Form.extra (updateExtra i p v f) =
  Arr.set (Arr.spread (Form.extra f)) i
          (Obj (spread_with (Arr.get (Arr.spread (Form.extra f)) i) p v)).
Proof. reflexivity. Qed.

Lemma updateExtra_length (i : nat) (p : prop) (v : string) (f : Form.t) :
  length (Form.extra (updateExtra i p v f)) = max (length (Form.extra f)) (S i).
Proof. rewrite updateExtra_extra, Arr_set_length, Arr_spread_length. reflexivity. Qed.

Lemma addExtraRow_length (f : Form.t) :
  length (Form.extra (addExtraRow f)) = S (length (Form.extra f)).
Proof.
  unfold addExtraRow. simpl. rewrite length_app, Arr_spread_length. simpl. lia.
Qed.

Lemma removeExtraRow_length (i : nat) (f : Form.t) :
  1 ≤ length (Form.extra (removeExtraRow i f)).
Proof.
  unfold removeExtraRow. simpl.
  destruct (decide (length (Arr.filter_ne i (Form.extra f)) = 0)); simpl; lia.
Qed.

Lemma updateField_extra (u : field_update) (f : Form.t) :
  Form.extra (updateField u f) = Form.extra f.
Proof. destruct f, u; reflexivity. Qed.

Lemma setCover_extra (file : option string) (f : Form.t) :
  Form.extra (setCover file f) = Form.extra f.
Proof. destruct f; reflexivity. Qed.

Section FormFacts.
Context `{JsRuntime}.

Lemma rows_of_work_length (w : Work.t) : 1 ≤ length (rows_of_work w).
Proof.
  unfold rows_of_work. destruct (Work.extra w) as [[|kv kvs]|]; simpl; lia.
Qed.

Lemma handle_keeps_a_row (ev : event) (s : App.t) :
  1 ≤ length (Form.extra (App.form s)) →
  1 ≤ length (Form.extra (App.form (handle ev s))).
Proof.
  intros Hs. destruct ev as [u|file|i p v| |i|[]|w|];
    cbn [handle on_form App.form submit startEdit cancelEdit Form.extra Form.blank].
  - rewrite updateField_extra. exact Hs.
  - rewrite setCover_extra. exact Hs.
  - rewrite updateExtra_length. lia.
  - rewrite addExtraRow_length. lia.
  - apply removeExtraRow_length.
  - simpl. lia.
  - exact Hs.
  - apply rows_of_work_length.
  - simpl. lia.
Qed.

Lemma run_keeps_a_row (evs : list event) (s : App.t) :
  1 ≤ length (Form.extra (App.form s)) →
  1 ≤ length (Form.extra (App.form (run evs s))).
Proof.
  revert s. induction evs as [|ev evs IH]; intros s Hs; [exact Hs|].
  apply IH, handle_keeps_a_row, Hs.
Qed.

(** C10. The row list of the form is never empty. It has a row in the
    initial state and after any sequence of form events; and whatever
    the state before, it has a row after adding a row, after updating a
    row, after removing a row (the last one included: an empty row
    takes its place), after an answered submit, after starting the edit
    of a work (with or without extra attributes) and after cancelling
    an edit. *)
Theorem extra_rows_never_empty :
  (∀ evs, 1 ≤ length (Form.extra (App.form (run evs App.initial))))
  ∧ (∀ f, 1 ≤ length (Form.extra (addExtraRow f)))
  ∧ (∀ i p v f, 1 ≤ length (Form.extra (updateExtra i p v f)))
  ∧ (∀ i f, 1 ≤ length (Form.extra (removeExtraRow i f)))
  ∧ (∀ f, Form.extra (removeExtraRow 0 (Form.with_extra [Obj emptyExtraRow] f))
          = [Obj emptyExtraRow])
  ∧ (∀ s, Form.extra (App.form (submit true s)) = [Obj emptyExtraRow])
  ∧ (∀ w s, 1 ≤ length (Form.extra (App.form (startEdit w s))))
  ∧ (∀ w s, Work.extra w = None ∨ Work.extra w = Some [] →
            Form.extra (App.form (startEdit w s)) = [Obj emptyExtraRow])
  ∧ (∀ s, Form.extra (App.form (cancelEdit s)) = [Obj emptyExtraRow]).
Proof.
  split; [|split; [|split; [|split; [|split; [|split; [|split; [|split]]]]]]].
  - intros evs. apply run_keeps_a_row. simpl. lia.
  - intros f. rewrite addExtraRow_length. lia.
  - intros i p v f. rewrite updateExtra_length. lia.
  - intros i f. apply removeExtraRow_length.
  - reflexivity.
  - reflexivity.
  - intros w s. apply rows_of_work_length.
  - intros w s [Hw | Hw]; simpl; unfold rows_of_work; rewrite Hw; reflexivity.
  - reflexivity.
Qed.

End FormFacts.

(** ** What the rendered form can reach *)

Lemma complete_spread (a : list elt) : Forall complete a → Arr.spread a = a.
Proof.
  induction 1 as [|e a [k [v ->]] _ IH]; [reflexivity|].
  unfold Arr.spread in *. rewrite fmap_cons, IH. reflexivity.
Qed.

Lemma complete_get (a : list elt) (i : nat) :
  Forall complete a → i < length a → complete (Arr.get a i).
Proof.
  intros Ha Hi. destruct (lookup_lt_is_Some_2 a i Hi) as [e He].
  unfold Arr.get. rewrite He.
  destruct (proj1 (Forall_lookup _ _) Ha i e He) as [k [v ->]]. eexists _, _. reflexivity.
Qed.

Lemma complete_spread_with (e : elt) (p : prop) (v : string) :
  complete e → complete (Obj (spread_with e p v)).
Proof. intros [k [v' ->]]. destruct p; eexists _, _; reflexivity. Qed.

Lemma complete_filter_from (i index : nat) (a : list elt) :
  Forall complete a → Forall complete (Arr.filter_from i index a).
Proof.
  intros Ha. revert i. induction Ha as [|e a He _ IH]; intros i; simpl; [constructor|].
  destruct e; [apply IH| |]; destruct (decide (i = index)); auto.
Qed.

Lemma complete_extraJson (a : list elt) (obj : gmap string (option string)) :
  Forall complete a → is_Some (extraJson_from obj a).
Proof.
  intros Ha. revert obj. induction Ha as [|e a [k [v ->]] _ IH]; intros obj; simpl.
  - eexists. reflexivity.
  - destruct (Js.truthy (Js.trim k)); apply IH.
Qed.

Section Reachable.
Context `{JsRuntime}.

Lemma rows_of_work_complete (w : Work.t) : Forall complete (rows_of_work w).
Proof.
  assert (Hrow : ∀ kvs, Forall complete (row_of <$> kvs)).
  { intros kvs. apply Forall_fmap, Forall_forall. intros [k v] _.
    exists k, v. reflexivity. }
  assert (Hempty : Forall complete [Obj emptyExtraRow]).
  { repeat constructor. exists "", "". reflexivity. }
  unfold rows_of_work. destruct (Work.extra w) as [[|kv kvs]|]; auto.
Qed.

(** Through the rendered form every element of the row list stays a
    row object with a key text and a value text. *)
Lemma reachable_rows_complete (s : App.t) :
  reachable s → Forall complete (Form.extra (App.form s)).
Proof.
  assert (Hempty : Forall complete [Obj emptyExtraRow]).
  { repeat constructor. exists "", "". reflexivity. }
  induction 1 as [|ev s _ IH Hoff]; [exact Hempty|].
  destruct ev as [u|file|i p v| |i|[]|w|];
    cbn [handle on_form App.form submit startEdit cancelEdit Form.extra
         Form.blank offered] in *.
  - rewrite updateField_extra. exact IH.
  - rewrite setCover_extra. exact IH.
  - rewrite updateExtra_extra, (complete_spread _ IH). unfold Arr.set.
    destruct (decide _) as [_|Hge]; [|lia].
    apply Forall_insert; [exact IH|].
    apply complete_spread_with, complete_get; assumption.
  - unfold addExtraRow. cbn [Form.with_extra Form.extra].
    rewrite (complete_spread _ IH). apply Forall_app. split; assumption.
  - unfold removeExtraRow. cbn [Form.with_extra Form.extra].
    destruct (decide _); [exact Hempty | apply complete_filter_from, IH].
  - exact Hempty.
  - exact IH.
  - apply rows_of_work_complete.
  - exact Hempty.
Qed.

(** X3. Hence [extraJson] never throws on a state the rendered form
    can reach. *)
Lemma reachable_extraJson_total (s : App.t) :
  reachable s → is_Some (extraJson (Form.extra (App.form s))).
Proof.
  intros Hs. apply complete_extraJson, reachable_rows_complete, Hs.
Qed.

End Reachable.

(** ** The claims on the small catalogue *)

Section Examples.
#[local] Existing Instance Demo.runtime.

(** The scenario of the specification: the tag text "dra" finds the
    sample work, a minimum price of 1300 excludes it. *)
Example scenario_tags :
  Work.id <$> filteredWorks Demo.catalogue (Demo.on NTags "dra") = [1%Z; 2%Z].
Proof. reflexivity. Qed.

Example scenario_price :
  Work.id <$> filteredWorks Demo.catalogue (Demo.on NPriceMin "1300") = [].
Proof. reflexivity. Qed.

(** Editing a work loads its extra attributes into the form, the key
    ["__proto__"] included; the mapping built from the form for the save
    no longer has it. *)
Example edit_loses_proto :
  Form.extra (App.form (startEdit Demo.odd App.initial))
    = [row_of ("__proto__", "x")]
  ∧ extraJson (Form.extra (App.form (startEdit Demo.odd App.initial))) = Some ∅.
Proof. split; reflexivity. Qed.

(** The rendering of the sample work's extra attributes, character by
    character. *)
Example stringify_sample :
  let dq := String (ascii_of_nat 34) "" in
  JSON.stringify (default [] (Work.extra Demo.sample))
  = "{" +:+ dq +:+ "size" +:+ dq +:+ ":" +:+ dq +:+ "B5" +:+ dq +:+ ","
    +:+ dq +:+ "pages" +:+ dq +:+ ":" +:+ dq +:+ "24" +:+ dq +:+ "}".
Proof. reflexivity. Qed.




(** A minimum, or a maximum, of 500 keeps the work priced exactly 500;
    a minimum excludes the work without a price and the work priced
    below it, a maximum the work priced above it. *)
Lemma price_bounds_inclusive_witness :
  keep (Demo.on NPriceMin "500") Demo.adult = true
  ∧ keep (Demo.on NPriceMax "500") Demo.adult = true
  ∧ keep (Demo.on NPriceMin "500") Demo.bare = false
  ∧ keep (Demo.on NPriceMin "1300") Demo.sample = false
  ∧ keep (Demo.on NPriceMax "500") Demo.sample = false.
Proof.
  destruct (price_bounds_inclusive Filters.initial Demo.adult) as (_ & _ & Hown).
  destruct (Hown "500" (SStr "500")) as (_ & Hmin & _ & Hmax);
    [discriminate | reflexivity |].
  split; [apply Hmin; reflexivity|]. split; [apply Hmax; reflexivity|].
  split; [|split].
  - exact (proj1 (price_bounds_inclusive (Demo.on NPriceMin "500") Demo.bare)
             _ eq_refl).
  - exact (proj1 (proj1 (price_bounds_inclusive (Demo.on NPriceMin "1300") Demo.sample)
                    _ eq_refl) eq_refl).
  - exact (proj1 (proj1 (proj2 (price_bounds_inclusive (Demo.on NPriceMax "500")
                                  Demo.sample)) _ eq_refl) eq_refl).
Defined.





End Examples.

(* ===================================================================== *)
(** * Further properties of the component *)
(* ===================================================================== *)

(** ** [extraJson]: when it throws, and what its keys are *)

Lemma extraJson_from_succeeds (obj : gmap string (option string)) (rows : list elt) :
  is_Some (extraJson_from obj rows)
  ↔ Forall (λ e, ∃ r k, e = Obj r ∧ Row.key r = Some k) rows.
Proof.
  revert obj. induction rows as [|e rows IH]; intros obj; simpl.
  - split; [constructor | eauto].
  - rewrite Forall_cons. destruct e as [| |[[k|] v]]; simpl.
    + split; [intros [? [=]] | intros [(r & k & [=] & _) _]].
    + split; [intros [? [=]] | intros [(r & k & [=] & _) _]].
    + destruct (Js.truthy (Js.trim k)); rewrite IH; split;
        try tauto; intros Hrest; (split; [eexists _, _; split; reflexivity | exact Hrest]).
    + split; [intros [? [=]] | intros [(r & k & [= <-] & [=]) _]].
Qed.

(** X2. [extraJson] returns a mapping exactly when every element of the
    row list is an object with a [key] property; on a hole, on
    [undefined] and on a row without key it throws. *)
Theorem extraJson_succeeds_iff (rows : list elt) :
  is_Some (extraJson rows)
  ↔ Forall (λ e, ∃ r k, e = Obj r ∧ Row.key r = Some k) rows.
Proof. apply extraJson_from_succeeds. Qed.

Lemma extraJson_from_keys (P : string → Prop) (obj m : gmap string (option string))
    (rows : list elt) :
  (∀ k, is_Some (obj !! k) → P k) →
  (∀ r k0, Obj r ∈ rows → Row.key r = Some k0 →
           Js.trim k0 ≠ "" → Js.trim k0 ≠ "__proto__" → P (Js.trim k0)) →
  extraJson_from obj rows = Some m →
  ∀ k, is_Some (m !! k) → P k.
Proof.
  revert obj. induction rows as [|e rows IH]; intros obj Hobj Hrows Hm; simpl in Hm.
  - injection Hm as <-. exact Hobj.
  - destruct e as [| |[[k0|] v]]; simpl in Hm; try discriminate.
    assert (Hrest : ∀ r k1, Obj r ∈ rows → Row.key r = Some k1 →
              Js.trim k1 ≠ "" → Js.trim k1 ≠ "__proto__" → P (Js.trim k1)).
    { intros r k1 Hin. apply Hrows. right. exact Hin. }
    destruct (Js.truthy (Js.trim k0)) eqn:Ht.
    + apply truthy_true in Ht. refine (IH _ _ Hrest Hm).
      intros k. rewrite obj_set_lookup. destruct (decide _) as [[<- Hp]|_].
      * intros _. apply (Hrows (Row.mk (Some k0) v) k0); [left | reflexivity | |];
          assumption.
      * apply Hobj.
    + exact (IH _ Hobj Hrest Hm).
Qed.

(** X5. Every key of the mapping [extraJson] builds is the trimmed key
    of one of the rows; it is not empty, it has no white space left at
    its ends, and it is not ["__proto__"]. *)
Theorem extraJson_keys_trimmed (rows : list elt) (m : gmap string (option string))
    (k : string) :
  extraJson rows = Some m → is_Some (m !! k) →
  k ≠ "" ∧ k ≠ "__proto__" ∧ Js.trim k = k
  ∧ ∃ r k0, Obj r ∈ rows ∧ Row.key r = Some k0 ∧ Js.trim k0 = k.
Proof.
  intros Hm. revert k.
  apply (extraJson_from_keys
           (λ k, k ≠ "" ∧ k ≠ "__proto__" ∧ Js.trim k = k
                 ∧ ∃ r k0, Obj r ∈ rows ∧ Row.key r = Some k0 ∧ Js.trim k0 = k)
           ∅ m rows); [| |exact Hm].
  - intros k [v Hv]. rewrite lookup_empty in Hv. discriminate.
  - intros r k0 Hin Hk Hne Hp. repeat split; try assumption.
    + apply trim_idempotent.
    + exists r, k0. repeat split; assumption.
Qed.

(** ** Editing a work and building the mapping again *)

Lemma extraJson_from_clean (obj : gmap string (option string))
    (kvs : list (string * string)) :
  Forall (λ kv, Js.trim kv.1 = kv.1 ∧ kv.1 ≠ "" ∧ kv.1 ≠ "__proto__") kvs →
  extraJson_from obj (row_of <$> kvs)
  = Some (foldl (λ m kv, <[kv.1 := Some kv.2]> m) obj kvs).
Proof.
  intros Hclean. revert obj.
  induction Hclean as [|kv kvs (Htrim & Hne & Hp) _ IH]; intros obj; [reflexivity|].
  rewrite fmap_cons. cbn [extraJson_from foldl].
  rewrite extraJson_step_row, Htrim.
  apply truthy_true in Hne. rewrite Hne. unfold obj_set.
  destruct (decide (kv.1 = "__proto__")); [contradiction|]. apply IH.
Qed.

Lemma foldl_insert_lookup (obj : gmap string (option string))
    (kvs : list (string * string)) (k : string) :
  NoDup kvs.*1 →
  foldl (λ m kv, <[kv.1 := Some kv.2]> m) obj kvs !! k
  = match (list_to_map kvs : gmap string string) !! k with
    | Some v => Some (Some v)
    | None => obj !! k
    end.
Proof.
  revert obj. induction kvs as [|[k1 v1] kvs IH]; intros obj Hnd.
  - simpl. rewrite lookup_empty. reflexivity.
  - rewrite fmap_cons, NoDup_cons in Hnd. destruct Hnd as [Hk1 Hnd].
    cbn [foldl fst snd]. rewrite (IH _ Hnd), list_to_map_cons.
    destruct (decide (k1 = k)) as [<-|Hne].
    + rewrite (not_elem_of_list_to_map_1 kvs k1 Hk1), !lookup_insert_eq. reflexivity.
    + rewrite !lookup_insert_ne by exact Hne. reflexivity.
Qed.

(** X4. Loading a work into the form and building [extraJson] from the
    rows gives the work's extra attributes back: when the keys of
    [work.extra] are distinct, trimmed, not empty and not ["__proto__"],
    the mapping built after [startEdit] holds exactly the entries of
    [work.extra] (and is empty for a work without any). *)
Theorem edit_restores_extra `{JsRuntime} (w : Work.t) (s : App.t) :
  NoDup (default [] (Work.extra w)).*1 →
  Forall (λ kv, Js.trim kv.1 = kv.1 ∧ kv.1 ≠ "" ∧ kv.1 ≠ "__proto__")
         (default [] (Work.extra w)) →
  ∃ m, extraJson (Form.extra (App.form (startEdit w s))) = Some m
       ∧ ∀ k, m !! k
              = Some <$> (list_to_map (default [] (Work.extra w)) : gmap string string) !! k.
Proof.
  intros Hnd Hclean. cbn [startEdit App.form Form.extra]. unfold rows_of_work.
  destruct (Work.extra w) as [[|kv kvs]|]; cbn [default] in *.
  - exists ∅. split; [reflexivity|]. intros k. rewrite !lookup_empty. reflexivity.
  - eexists. split; [apply (extraJson_from_clean ∅ (kv :: kvs) Hclean)|].
    intros k. rewrite (foldl_insert_lookup ∅ (kv :: kvs) k Hnd), lookup_empty.
    destruct (_ !! k); reflexivity.
  - exists ∅. split; [reflexivity|]. intros k. rewrite !lookup_empty. reflexivity.
Qed.

(** ** The ordered object agrees with the mapping *)

Lemma replace_Some (k : string) (v : option string)
    (es es' : list (string * option string)) :
  Props.replace k v es = Some es' →
  es'.*1 = es.*1 ∧ k ∈ es.*1
  ∧ (list_to_map es' : gmap string (option string)) = <[k := v]> (list_to_map es).
Proof.
  revert es'. induction es as [|[k' v'] es IH]; intros es' Hr; simpl in Hr; [discriminate|].
  destruct (decide (k' = k)) as [->|Hne].
  - injection Hr as <-. repeat split.
    + left.
    + rewrite !list_to_map_cons, insert_insert_eq. reflexivity.
  - destruct (Props.replace k v es) as [rest'|]; [|discriminate].
    injection Hr as <-. destruct (IH rest' eq_refl) as (Hkeys & Hin & Hmap).
    repeat split.
    + rewrite !fmap_cons, Hkeys. reflexivity.
    + right. exact Hin.
    + rewrite !list_to_map_cons, Hmap. apply insert_insert_ne. exact Hne.
Qed.

Lemma replace_None (k : string) (v : option string)
    (es : list (string * option string)) :
  Props.replace k v es = None → k ∉ es.*1.
Proof.
  induction es as [|[k' v'] es IH]; simpl; intros Hr; [apply not_elem_of_nil|].
  destruct (decide (k' = k)) as [->|Hne]; [discriminate|].
  destruct (Props.replace k v es); [discriminate|].
  rewrite not_elem_of_cons. split; [congruence | apply IH; reflexivity].
Qed.

Lemma insert_index_perm (n : N) (k : string) (v : option string)
    (es : list (string * option string)) :
  Props.insert_index n k v es ≡ₚ (k, v) :: es.
Proof.
  induction es as [|[k' v'] es IH]; simpl; [reflexivity|].
  destruct (Props.array_index k') as [n'|]; [|reflexivity].
  destruct (n <? n')%N; [reflexivity|].
  rewrite IH. apply Permutation_swap.
Qed.

Lemma Props_set_spec (k : string) (v : option string)
    (es : list (string * option string)) :
  NoDup es.*1 →
  NoDup (Props.set k v es).*1
  ∧ (list_to_map (Props.set k v es) : gmap string (option string))
    = obj_set k v (list_to_map es).
Proof.
  intros Hnd. unfold Props.set, obj_set.
  destruct (decide (k = "__proto__")); [split; [exact Hnd | reflexivity]|].
  destruct (Props.replace k v es) as [es'|] eqn:Hr.
  - destruct (replace_Some k v es es' Hr) as (Hkeys & _ & Hmap).
    split; [rewrite Hkeys; exact Hnd | exact Hmap].
  - apply replace_None in Hr.
    assert (Hnew : NoDup ((k, v) :: es).*1).
    { rewrite fmap_cons. apply NoDup_cons. split; assumption. }
    assert (Hperm : ∀ l, l ≡ₚ (k, v) :: es →
              NoDup l.*1
              ∧ (list_to_map l : gmap string (option string)) = <[k := v]> (list_to_map es)).
    { intros l Hl. split.
      - rewrite Hl. exact Hnew.
      - symmetry. rewrite <- list_to_map_cons. apply list_to_map_proper; [exact Hnew|].
        symmetry. exact Hl. }
    destruct (Props.array_index k) as [n'|].
    + apply Hperm, insert_index_perm.
    + apply Hperm. symmetry. apply Permutation_cons_append.
Qed.

Lemma extraJson_entries_from_agree (es : list (string * option string))
    (rows : list elt) :
  NoDup es.*1 →
  match extraJson_entries_from es rows with
  | Some es' => NoDup es'.*1
                ∧ extraJson_from (list_to_map es) rows = Some (list_to_map es')
  | None => extraJson_from (list_to_map es) rows = None
  end.
Proof.
  revert es. induction rows as [|e rows IH]; intros es Hnd; simpl.
  - split; [exact Hnd | reflexivity].
  - destruct e as [| |[[k|] v]]; simpl; try reflexivity.
    destruct (Js.truthy (Js.trim k)); [|apply IH, Hnd].
    destruct (Props_set_spec (Js.trim k) v es Hnd) as [Hnd' <-]. apply IH, Hnd'.
Qed.

(** X6. The own properties of [extraJson], in the order the object
    enumerates them, never repeat a key, and they are the entries of the
    mapping: the ordered object and the mapping are built or fail
    together. *)
Theorem extraJson_entries_agree (rows : list elt) :
  match extraJson_entries rows with
  | Some es => NoDup es.*1 ∧ extraJson rows = Some (list_to_map es)
  | None => extraJson rows = None
  end.
Proof. apply (extraJson_entries_from_agree [] rows). constructor. Qed.

(** ** Setting and clearing filter inputs *)

Section Shorter.
Context `{JsRuntime}.

Lemma toLowerCase_nil : toLowerCase "" = "".
Proof. apply toLowerCase_empty. reflexivity. Qed.

Lemma isubstring_refl (s : string) : Spec.isubstring s s.
Proof. exists "", "". rewrite append_nil_r. reflexivity. Qed.

Lemma isubstring_trans (a b c : string) :
  Spec.isubstring a b → Spec.isubstring b c → Spec.isubstring a c.
Proof.
  intros (p & q' & Hab) (pre & post & Hbc). exists (pre +:+ p), (q' +:+ post).
  rewrite Hbc, Hab, !append_assoc. reflexivity.
Qed.

Lemma isubstring_in_empty (a : string) : Spec.isubstring a "" → a = "".
Proof.
  intros (pre & post & He). rewrite toLowerCase_nil in He. symmetry in He.
  apply append_empty in He as [_ He]. apply append_empty in He as [He _].
  apply toLowerCase_empty, He.
Qed.

Lemma text_ok_shorter (t t' : string) (field : option string) :
  Spec.isubstring t t' → Spec.text_ok t' field → Spec.text_ok t field.
Proof.
  intros Hsub [-> | (s & Hf & Hs)].
  - left. apply isubstring_in_empty, Hsub.
  - right. exists s. split; [exact Hf | exact (isubstring_trans _ _ _ Hsub Hs)].
Qed.

Lemma tags_ok_shorter (t t' : string) (tags : option (list string)) :
  Spec.isubstring t t' → Spec.tags_ok t' tags → Spec.tags_ok t tags.
Proof.
  intros Hsub [-> | (s & Hf & Hs)].
  - left. apply isubstring_in_empty, Hsub.
  - right. exists s. split; [exact Hf | exact (isubstring_trans _ _ _ Hsub Hs)].
Qed.

Lemma extra_ok_shorter (t t' : string) (extra : option (list (string * string))) :
  Spec.isubstring t t' → Spec.extra_ok t' extra → Spec.extra_ok t extra.
Proof.
  intros Hsub [-> | Hs].
  - left. apply isubstring_in_empty, Hsub.
  - right. exact (isubstring_trans _ _ _ Hsub Hs).
Qed.

End Shorter.

Lemma updateFilter_twice (n : filter_name) (v1 v2 : string) (f : Filters.t) :
  updateFilter n v2 (updateFilter n v1 f) = updateFilter n v2 f.
Proof. destruct n, f; reflexivity. Qed.

Lemma updateFilter_same (n : filter_name) (f : Filters.t) :
  updateFilter n (filter_value n f) f = f.
Proof. destruct n, f; reflexivity. Qed.

Lemma filter_value_extra (v : string) (f : Filters.t) :
  Filters.extra (updateFilter NExtra v f) = v.
Proof. destruct f; reflexivity. Qed.

Lemma filter_value_update (n : filter_name) (v : string) (f : Filters.t) :
  filter_value n (updateFilter n v f) = v.
Proof. destruct n, f; reflexivity. Qed.

Section Narrowing.
Context `{JsRuntime}.

(** Clearing an input never loses a work. *)
Lemma passes_cleared (n : filter_name) (f : Filters.t) (w : Work.t) :
  Guards.passes (Guards.of_filters f) w →
  Guards.passes (Guards.of_filters (updateFilter n (unset_value n) f)) w.
Proof.
  destruct n, f; unfold Guards.passes, Guards.of_filters, updateFilter, unset_value,
    minPrice, maxPrice, fromDate, toDate;
    cbn -[Spec.text_ok Spec.tags_ok Spec.extra_ok Guards.not_below Guards.not_above
          Spec.r18_ok dateVal String.eqb];
    rewrite ?String.eqb_refl; cbn [Spec.r18_ok];
    intuition (auto with relax).
Qed.

Lemma sublist_of_implication (ws : list Work.t) (f f' : Filters.t) :
  (∀ w, keep f' w = true → keep f w = true) →
  filteredWorks ws f' `sublist_of` filteredWorks ws f.
Proof.
  intros Himp. induction ws as [|w ws IH]; [constructor|].
  rewrite !filteredWorks_cons. destruct (keep f' w) eqn:Hk'.
  - rewrite (Himp w Hk'). apply sublist_skip, IH.
  - destruct (keep f w); [apply sublist_cons, IH | exact IH].
Qed.

(** X7. Filling in an input that imposed no constraint (an empty text
    or bound, "all" for R-18) can only narrow the list: the works shown
    afterwards are a sublist of the works shown before. *)
Theorem setting_a_criterion_narrows (n : filter_name) (v : string)
    (f : Filters.t) (ws : list Work.t) :
  filter_value n f = unset_value n →
  filteredWorks ws (updateFilter n v f) `sublist_of` filteredWorks ws f.
Proof.
  intros Hunset. apply sublist_of_implication. intros w Hk.
  apply keep_true_iff in Hk. apply keep_true_iff.
  apply (passes_cleared n) in Hk.
  rewrite updateFilter_twice, <- Hunset, updateFilter_same in Hk. exact Hk.
Qed.

Lemma passes_shorter (n : filter_name) (t t' : string) (f : Filters.t) (w : Work.t) :
  is_text n = true → Spec.isubstring t t' →
  Guards.passes (Guards.of_filters (updateFilter n t' f)) w →
  Guards.passes (Guards.of_filters (updateFilter n t f)) w.
Proof.
  intros Htext Hsub.
  destruct n; try discriminate; destruct f;
    unfold Guards.passes, Guards.of_filters, updateFilter,
      minPrice, maxPrice, fromDate, toDate;
    cbn -[Spec.text_ok Spec.tags_ok Spec.extra_ok Guards.not_below Guards.not_above
          Spec.r18_ok dateVal String.eqb];
    intuition eauto using text_ok_shorter, tags_ok_shorter, extra_ok_shorter.
Qed.

(** X8. A text search narrows with its text: when the text of a search
    input is replaced by one whose lower-case form contains the
    lower-case form of the old text, the works shown are a sublist of
    those shown before. *)
Theorem longer_text_narrows (n : filter_name) (t t' : string)
    (f : Filters.t) (ws : list Work.t) :
  is_text n = true → Spec.isubstring t t' →
  filteredWorks ws (updateFilter n t' f) `sublist_of` filteredWorks ws (updateFilter n t f).
Proof.
  intros Htext Hsub. apply sublist_of_implication. intros w Hk.
  apply keep_true_iff in Hk. apply keep_true_iff.
  exact (passes_shorter n t t' f w Htext Hsub Hk).
Qed.

Lemma contains_case (b : option string) (t1 t2 : string) :
  toLowerCase t1 = toLowerCase t2 → contains b t1 = contains b t2.
Proof. intros Hl. unfold contains, q. simpl. rewrite Hl. reflexivity. Qed.

Lemma truthy_case (t1 t2 : string) :
  toLowerCase t1 = toLowerCase t2 → Js.truthy t1 = Js.truthy t2.
Proof.
  intros Hl. destruct (Js.truthy t1) eqn:H1, (Js.truthy t2) eqn:H2; try reflexivity.
  - apply truthy_false in H2. subst t2. rewrite toLowerCase_nil in Hl.
    apply (proj1 (toLowerCase_empty t1)) in Hl. subst t1. discriminate.
  - apply truthy_false in H1. subst t1. rewrite toLowerCase_nil in Hl.
    symmetry in Hl. apply (proj1 (toLowerCase_empty t2)) in Hl. subst t2. discriminate.
Qed.

Lemma existsb_contains_case (l : list string) (t1 t2 : string) :
  toLowerCase t1 = toLowerCase t2 →
  existsb (λ t, contains (Some t) t1) l = existsb (λ t, contains (Some t) t2) l.
Proof.
  intros Hl. induction l as [|x l IH]; simpl; [reflexivity|].
  rewrite IH, (contains_case (Some x) t1 t2 Hl). reflexivity.
Qed.

Lemma keep_case (n : filter_name) (t1 t2 : string) (f : Filters.t) (w : Work.t) :
  is_text n = true → toLowerCase t1 = toLowerCase t2 →
  keep (updateFilter n t1 f) w = keep (updateFilter n t2 f) w.
Proof.
  intros Htext Hl.
  pose proof (truthy_case t1 t2 Hl) as Ht.
  pose proof (λ b, contains_case b t1 t2 Hl) as Hc.
  pose proof (λ l, existsb_contains_case l t1 t2 Hl) as He.
  destruct n; try discriminate; destruct f; unfold keep;
    cbn [updateFilter Filters.title Filters.author Filters.circle Filters.summary
         Filters.purchase_event Filters.tags Filters.extra Filters.is_r18];
    rewrite ?Ht, ?Hc, ?He; reflexivity.
Qed.

(** X9. The text searches ignore the letter case of what is typed: two
    texts with the same lower-case form, in the same search input, show
    the same works. *)
Theorem search_ignores_case (n : filter_name) (t1 t2 : string)
    (f : Filters.t) (ws : list Work.t) :
  is_text n = true → toLowerCase t1 = toLowerCase t2 →
  filteredWorks ws (updateFilter n t1 f) = filteredWorks ws (updateFilter n t2 f).
Proof.
  intros Htext Hl. unfold filteredWorks. apply filter_ext. intros w.
  exact (keep_case n t1 t2 f w Htext Hl).
Qed.

(** Letters beyond ASCII: where the runtime folds "CAFÉ" and "café" to
    the same text, the title "CAFÉ" is found by typing "café". *)
Example search_finds_accented (w : Work.t) :
  Work.title w = Some "CAFÉ" → toLowerCase "café" = toLowerCase "CAFÉ" →
  keep (updateFilter NTitle "café" Filters.initial) w = true.
Proof.
  intros Ht Hl. rewrite (keep_case NTitle "café" "CAFÉ" Filters.initial w eq_refl Hl).
  assert (Hc : contains (Work.title w) "CAFÉ" = true)
    by (rewrite Ht; apply contains_spec, isubstring_refl).
  unfold keep. cbn [updateFilter Filters.initial Filters.title]. rewrite Hc.
  reflexivity.
Qed.

End Narrowing.

(** ** Texts the runtime cannot read as a number or a date *)

Lemma isNaN_true (x : float) : isNaN x = true ↔ Prim2SF x = S754_nan.
Proof.
  unfold isNaN, PrimFloat.is_nan. rewrite FloatAxioms.eqb_spec. unfold SFeqb.
  rewrite SFcompare_refl. destruct (Prim2SF x); simpl; split; congruence.
Qed.

Lemma js_lt_nan_l (x b : float) : isNaN x = true → js_lt x b = false.
Proof.
  intros Hx. apply isNaN_true in Hx. unfold js_lt.
  rewrite FloatAxioms.ltb_spec, Hx. reflexivity.
Qed.

Lemma js_lt_nan_r (x b : float) : isNaN b = true → js_lt x b = false.
Proof.
  intros Hb. apply isNaN_true in Hb. unfold js_lt.
  rewrite FloatAxioms.ltb_spec, Hb. destruct (Prim2SF x); reflexivity.
Qed.

Section Unreadable.
Context `{JsRuntime}.

Lemma keep_without_price_bounds (f : Filters.t) (w : Work.t) :
  (∀ b, ∃ v, Guards.price_of w = Some v ∧ js_lt v b = false ∧ js_gt v b = false) →
  keep f w = keep (updateFilter NPriceMax "" (updateFilter NPriceMin "" f)) w.
Proof.
  intros Hv. apply bool_eq_of_iff.
  rewrite !keep_true_iff, (relax_price_min f), (relax_price_max (updateFilter _ _ f)).
  assert (Guards.not_below (minPrice f) (Guards.price_of w)).
  { intros b _. destruct (Hv b) as (v & ? & ? & _). eauto. }
  assert (Guards.not_above (maxPrice (updateFilter NPriceMin "" f)) (Guards.price_of w)).
  { intros b _. destruct (Hv b) as (v & ? & _ & ?). eauto. }
  tauto.
Qed.

Lemma keep_without_date_bounds (f : Filters.t) (w : Work.t) :
  (∀ b, ∃ v, Guards.instant_of w = Some v ∧ js_lt v b = false ∧ js_gt v b = false) →
  keep f w = keep (updateFilter NDateTo "" (updateFilter NDateFrom "" f)) w.
Proof.
  intros Hv. apply bool_eq_of_iff.
  rewrite !keep_true_iff, (relax_date_from f), (relax_date_to (updateFilter _ _ f)).
  assert (Guards.not_below (fromDate f) (Guards.instant_of w)).
  { intros b _. destruct (Hv b) as (v & ? & ? & _). eauto. }
  assert (Guards.not_above (toDate (updateFilter NDateFrom "" f)) (Guards.instant_of w)).
  { intros b _. destruct (Hv b) as (v & ? & _ & ?). eauto. }
  tauto.
Qed.

(** X10. A value the runtime reads as NaN passes every bound. A work
    whose price is a text [Number] cannot read is not excluded by
    [price_min] or [price_max], whatever they are: the filter decides on
    it as with both bounds cleared. Likewise a work whose purchase date
    [Date] cannot read is not excluded by [date_from] or [date_to]. *)
Theorem unreadable_values_pass_bounds (f : Filters.t) (w : Work.t) :
  (∀ p, Work.price w = Some p → isNaN (Number p) = true →
        keep f w = keep (updateFilter NPriceMax "" (updateFilter NPriceMin "" f)) w)
  ∧ (∀ s, Work.purchase_date w = Some s → s ≠ "" → isNaN (Date_getTime s) = true →
          keep f w = keep (updateFilter NDateTo "" (updateFilter NDateFrom "" f)) w).
Proof.
  split.
  - intros p Hp Hnan. apply keep_without_price_bounds. intros b.
    exists (Number p). unfold Guards.price_of. rewrite Hp.
    split; [reflexivity|]. split; [apply js_lt_nan_l | apply js_lt_nan_r]; exact Hnan.
  - intros s Hs Hne Hnan. apply keep_without_date_bounds. intros b.
    exists (Date_getTime s). rewrite (instant_of_dated w s Hs Hne).
    split; [reflexivity|]. split; [apply js_lt_nan_l | apply js_lt_nan_r]; exact Hnan.
Qed.

(** X11. A bound the runtime reads as NaN excludes the works without a
    value and no other: with a [price_min] that [Number] cannot read, a
    work is kept exactly when it has a price and the filter keeps it
    with that bound cleared; likewise for [date_from] and the works with
    a purchase date. *)
Theorem unreadable_bounds (f : Filters.t) (w : Work.t) :
  (Filters.price_min f ≠ "" → isNaN (StringToNumber (Filters.price_min f)) = true →
     (keep f w = true ↔
        is_Some (Work.price w) ∧ keep (updateFilter NPriceMin "" f) w = true))
  ∧ (Filters.date_from f ≠ "" → isNaN (Date_getTime (Filters.date_from f)) = true →
     (keep f w = true ↔
        is_Some (dateVal (Work.purchase_date w))
        ∧ keep (updateFilter NDateFrom "" f) w = true)).
Proof.
  split.
  - intros Hset Hnan. rewrite !keep_true_iff, relax_price_min.
    assert (Hlo : minPrice f = Some (StringToNumber (Filters.price_min f))).
    { unfold minPrice. rewrite eqb_empty_truthy.
      apply truthy_true in Hset. rewrite Hset. reflexivity. }
    enough (Guards.not_below (minPrice f) (Guards.price_of w) ↔ is_Some (Work.price w)) by tauto.
    unfold Guards.price_of. split.
    + intros Hb. destruct (Hb _ Hlo) as (v & Hv & _).
      destruct (Work.price w); [eauto | discriminate].
    + intros [p Hp] b Hb. rewrite Hp. exists (Number p).
      split; [reflexivity|]. apply js_lt_nan_r. congruence.
  - intros Hset Hnan. rewrite !keep_true_iff, relax_date_from.
    pose proof (date_from_set f Hset) as Hlo.
    enough (Guards.not_below (fromDate f) (Guards.instant_of w)
            ↔ is_Some (dateVal (Work.purchase_date w))) by tauto.
    unfold Guards.instant_of. split.
    + intros Hb. destruct (Hb _ Hlo) as (v & Hv & _). eauto.
    + intros [d Hd] b Hb. rewrite Hd. exists d.
      split; [reflexivity|]. apply js_lt_nan_r. congruence.
Qed.

End Unreadable.

(** ** The list views *)

Lemma applyAuthorFilter_filters (name : option string) (s : Listing.t) :
  Listing.filters (applyAuthorFilter name s)
  = updateFilter NCircle "" (updateFilter NAuthor (default "" name) (Listing.filters s)).
Proof. unfold applyAuthorFilter. destruct (Listing.filters s). reflexivity. Qed.

Lemma applyCircleFilter_filters (name : option string) (s : Listing.t) :
  Listing.filters (applyCircleFilter name s)
  = updateFilter NAuthor "" (updateFilter NCircle (default "" name) (Listing.filters s)).
Proof. unfold applyCircleFilter. destruct (Listing.filters s). reflexivity. Qed.

Lemma applyEventFilter_filters (name : option string) (s : Listing.t) :
  Listing.filters (applyEventFilter name s)
  = updateFilter NPurchaseEvent (default "" name) (Listing.filters s).
Proof. unfold applyEventFilter. destruct (Listing.filters s). reflexivity. Qed.

Lemma applyTagFilter_filters (name : option string) (s : Listing.t) :
  Listing.filters (applyTagFilter name s)
  = updateFilter NTags (default "" name) (Listing.filters s).
Proof. unfold applyTagFilter. destruct (Listing.filters s). reflexivity. Qed.

Lemma apply_filter_views (name : option string) (s : Listing.t) :
  Listing.view (applyAuthorFilter name s) = VWorks
  ∧ Listing.view (applyCircleFilter name s) = VWorks
  ∧ Listing.view (applyEventFilter name s) = VWorks
  ∧ Listing.view (applyTagFilter name s) = VWorks.
Proof.
  unfold applyAuthorFilter, applyCircleFilter, applyEventFilter, applyTagFilter.
  destruct (Listing.filters s). repeat split.
Qed.

Section ListViews.
Context `{JsRuntime}.

Lemma relax_author (f : Filters.t) (w : Work.t) :
  Guards.passes (Guards.of_filters f) w ↔
  Spec.text_ok (Filters.author f) (name_of (Work.author w))
  ∧ Guards.passes (Guards.of_filters (updateFilter NAuthor "" f)) w.
Proof. relax_criterion f. Qed.

Lemma relax_circle (f : Filters.t) (w : Work.t) :
  Guards.passes (Guards.of_filters f) w ↔
  Spec.text_ok (Filters.circle f) (name_of (Work.circle w))
  ∧ Guards.passes (Guards.of_filters (updateFilter NCircle "" f)) w.
Proof. relax_criterion f. Qed.

Lemma relax_purchase_event (f : Filters.t) (w : Work.t) :
  Guards.passes (Guards.of_filters f) w ↔
  Spec.text_ok (Filters.purchase_event f) (name_of (Work.purchase_event w))
  ∧ Guards.passes (Guards.of_filters (updateFilter NPurchaseEvent "" f)) w.
Proof. relax_criterion f. Qed.

Lemma text_ok_named (name : string) (e : option Named.t) :
  name ≠ "" →
  (Spec.text_ok name (name_of e) ↔ ∃ a, e = Some a ∧ Spec.isubstring name (Named.name a)).
Proof.
  intros Hne. unfold Spec.text_ok. split.
  - intros [He | (s & Hs & Hsub)]; [contradiction|].
    destruct e as [a|]; [|discriminate]. injection Hs as <-. eauto.
  - intros (a & -> & Hsub). right. eauto.
Qed.

(** X12. Clicking an author in the author list shows the works view
    with the author criterion set to the name and the circle criterion
    cleared, the other inputs as they were. A work is then shown exactly
    when its author's name contains the clicked name (letter case
    ignored) and the work passes the filter with both the author and the
    circle criterion cleared; in particular every such work of an author
    with exactly that name is shown, and so are works of authors whose
    name merely contains it. Clicking a circle does the same with the
    two criteria exchanged, and a click on either list undoes the other
    list's click. *)
Theorem list_click_author_circle (name : string) (s : Listing.t) (w : Work.t) :
  name ≠ "" →
  let others :=
    updateFilter NCircle "" (updateFilter NAuthor "" (Listing.filters s)) in
  Listing.view (applyAuthorFilter (Some name) s) = VWorks
  ∧ Listing.view (applyCircleFilter (Some name) s) = VWorks
  ∧ (keep (Listing.filters (applyAuthorFilter (Some name) s)) w = true ↔
       (∃ a, Work.author w = Some a ∧ Spec.isubstring name (Named.name a))
       ∧ keep others w = true)
  ∧ (keep (Listing.filters (applyCircleFilter (Some name) s)) w = true ↔
       (∃ c, Work.circle w = Some c ∧ Spec.isubstring name (Named.name c))
       ∧ keep others w = true)
  ∧ (∀ id, Work.author w = Some (Named.mk id name) → keep others w = true →
           keep (Listing.filters (applyAuthorFilter (Some name) s)) w = true)
  ∧ (∀ other, applyCircleFilter (Some name) (applyAuthorFilter other s)
              = applyCircleFilter (Some name) s)
  ∧ (∀ other, applyAuthorFilter (Some name) (applyCircleFilter other s)
              = applyAuthorFilter (Some name) s).
Proof.
  intros Hne others.
  assert (Hauthor : keep (Listing.filters (applyAuthorFilter (Some name) s)) w = true ↔
       (∃ a, Work.author w = Some a ∧ Spec.isubstring name (Named.name a))
       ∧ keep others w = true).
  { rewrite applyAuthorFilter_filters, !keep_true_iff, relax_author.
    rewrite <- (text_ok_named name (Work.author w) Hne). subst others.
    destruct (Listing.filters s). cbn [default updateFilter Filters.author]. tauto. }
  split; [apply apply_filter_views|]. split; [apply apply_filter_views|].
  split; [exact Hauthor|]. split; [|split; [|split]].
  - rewrite applyCircleFilter_filters, !keep_true_iff, relax_circle.
    rewrite <- (text_ok_named name (Work.circle w) Hne). subst others.
    destruct (Listing.filters s). cbn [default updateFilter Filters.circle]. tauto.
  - intros id Hw Hk. apply Hauthor. split; [|exact Hk].
    eexists. split; [exact Hw | apply isubstring_refl].
  - intros other. unfold applyCircleFilter, applyAuthorFilter.
    destruct (Listing.filters s). reflexivity.
  - intros other. unfold applyCircleFilter, applyAuthorFilter.
    destruct (Listing.filters s). reflexivity.
Qed.

(** X13. Clicking a tag in the tag list shows the works view with the
    tags criterion set to the tag name, the other inputs as they were: a
    work is shown exactly when one of its tags contains the name and it
    passes the filter with the tags criterion cleared, so every work
    that carries the tag and passes the other criteria is shown.
    Clicking an event does the same for the purchase event's name. *)
Theorem list_click_tag_event (name : string) (s : Listing.t) (w : Work.t) :
  name ≠ "" →
  Listing.view (applyTagFilter (Some name) s) = VWorks
  ∧ Listing.view (applyEventFilter (Some name) s) = VWorks
  ∧ (keep (Listing.filters (applyTagFilter (Some name) s)) w = true ↔
       (∃ t, t ∈ default [] (Work.tags w) ∧ Spec.isubstring name t)
       ∧ keep (updateFilter NTags "" (Listing.filters s)) w = true)
  ∧ (name ∈ default [] (Work.tags w) →
     keep (updateFilter NTags "" (Listing.filters s)) w = true →
     keep (Listing.filters (applyTagFilter (Some name) s)) w = true)
  ∧ (keep (Listing.filters (applyEventFilter (Some name) s)) w = true ↔
       (∃ e, Work.purchase_event w = Some e ∧ Spec.isubstring name (Named.name e))
       ∧ keep (updateFilter NPurchaseEvent "" (Listing.filters s)) w = true).
Proof.
  intros Hne.
  assert (Htag : keep (Listing.filters (applyTagFilter (Some name) s)) w = true ↔
       (∃ t, t ∈ default [] (Work.tags w) ∧ Spec.isubstring name t)
       ∧ keep (updateFilter NTags "" (Listing.filters s)) w = true).
  { rewrite applyTagFilter_filters, !keep_true_iff, relax_tags, updateFilter_twice.
    destruct (Listing.filters s). cbn [default updateFilter Filters.tags].
    unfold Spec.tags_ok. tauto. }
  split; [apply apply_filter_views|]. split; [apply apply_filter_views|].
  split; [exact Htag|]. split.
  - intros Hin Hk. apply Htag. split; [|exact Hk].
    exists name. split; [exact Hin | apply isubstring_refl].
  - rewrite applyEventFilter_filters, !keep_true_iff, relax_purchase_event,
      updateFilter_twice.
    rewrite <- (text_ok_named name (Work.purchase_event w) Hne).
    destruct (Listing.filters s). cbn [default updateFilter Filters.purchase_event]. tauto.
Qed.

End ListViews.

(** ** Rows added, changed and removed *)

Lemma spread_no_holes (a : list elt) : Forall (λ e, e ≠ Hole) a → Arr.spread a = a.
Proof.
  induction 1 as [|e a He _ IH]; [reflexivity|].
  unfold Arr.spread in *. rewrite fmap_cons, IH. destruct e; congruence.
Qed.

Lemma filter_from_delete (i index : nat) (a : list elt) :
  Forall (λ e, e ≠ Hole) a →
  Arr.filter_from i index a = if decide (i ≤ index) then delete (index - i) a else a.
Proof.
  intros Ha. revert i. induction Ha as [|e a He _ IH]; intros i.
  - simpl. destruct (decide _); reflexivity.
  - cbn [Arr.filter_from]. rewrite IH.
    destruct e; [congruence| |];
      repeat destruct (decide _); try lia; subst;
      rewrite ?Nat.sub_diag; try reflexivity;
      (replace (index - i) with (S (index - S i)) by lia); reflexivity.
Qed.

Lemma with_extra_same (f : Form.t) : Form.with_extra (Form.extra f) f = f.
Proof. destruct f; reflexivity. Qed.

Lemma with_extra_twice (r1 r2 : list elt) (f : Form.t) :
  Form.with_extra r2 (Form.with_extra r1 f) = Form.with_extra r2 f.
Proof. destruct f; reflexivity. Qed.

Lemma removeExtraRow_rows (i : nat) (f : Form.t) :
  Forall (λ e, e ≠ Hole) (Form.extra f) →
  Form.extra (removeExtraRow i f)
  = match delete i (Form.extra f) with
    | [] => [Obj emptyExtraRow]
    | rows => rows
    end.
Proof.
  intros Hf. unfold removeExtraRow, Arr.filter_ne. cbn [Form.with_extra Form.extra].
  rewrite (filter_from_delete 0 i _ Hf), Nat.sub_0_r.
  destruct (decide (0 ≤ i)); [|lia].
  destruct (delete i (Form.extra f)); reflexivity.
Qed.

(** X14. On a row list without holes, the delete button of row [i]
    removes that row and no other; when it was the only row, one empty
    row takes its place; an index past the end changes nothing. *)
Theorem removeExtraRow_deletes (i : nat) (f : Form.t) :
  Forall (λ e, e ≠ Hole) (Form.extra f) →
  Form.extra (removeExtraRow i f)
  = match delete i (Form.extra f) with
    | [] => [Obj emptyExtraRow]
    | rows => rows
    end
  ∧ (2 ≤ length (Form.extra f) → i < length (Form.extra f) →
     Form.extra (removeExtraRow i f) = delete i (Form.extra f)
     ∧ length (Form.extra (removeExtraRow i f)) = length (Form.extra f) - 1)
  ∧ (1 ≤ length (Form.extra f) → length (Form.extra f) ≤ i →
     removeExtraRow i f = f).
Proof.
  intros Hf. pose proof (removeExtraRow_rows i f Hf) as Hrows.
  split; [exact Hrows|]. split.
  - intros Hlen Hi. rewrite Hrows.
    pose proof (length_delete (Form.extra f) i (lookup_lt_is_Some_2 _ _ Hi)) as Hd.
    destruct (delete i (Form.extra f)); simpl in *; [lia|]. split; [reflexivity | lia].
  - intros Hlen Hi.
    assert (Hsame : Form.extra (removeExtraRow i f) = Form.extra f).
    { rewrite Hrows, delete_take_drop, take_ge, drop_ge, app_nil_r by lia.
      destruct (Form.extra f); simpl in *; [lia | reflexivity]. }
    unfold removeExtraRow in *. cbn [Form.with_extra Form.extra] in Hsame.
    rewrite Hsame. apply with_extra_same.
Qed.

(** X15. Adding a row and deleting the added row gives back the form
    as it was (on a row list that has a row and no hole). *)
Theorem add_then_remove (f : Form.t) :
  Forall (λ e, e ≠ Hole) (Form.extra f) → 1 ≤ length (Form.extra f) →
  removeExtraRow (length (Form.extra f)) (addExtraRow f) = f.
Proof.
  intros Hf Hlen.
  assert (Hadd : Form.extra (addExtraRow f) = (Form.extra f ++ [Obj emptyExtraRow])%list).
  { unfold addExtraRow. cbn [Form.with_extra Form.extra].
    rewrite (spread_no_holes _ Hf). reflexivity. }
  assert (Hf' : Forall (λ e, e ≠ Hole) (Form.extra (addExtraRow f))).
  { rewrite Hadd. apply Forall_app. split; [exact Hf|]. repeat constructor. discriminate. }
  pose proof (removeExtraRow_rows (length (Form.extra f)) (addExtraRow f) Hf') as Hrows.
  rewrite Hadd in Hrows.
  assert (Hdel : delete (length (Form.extra f)) (Form.extra f ++ [Obj emptyExtraRow])%list
                 = Form.extra f).
  { rewrite delete_middle. apply app_nil_r. }
  rewrite Hdel in Hrows.
  assert (Hsame : Form.extra (removeExtraRow (length (Form.extra f)) (addExtraRow f))
                  = Form.extra f).
  { rewrite Hrows. destruct (Form.extra f); simpl in *; [lia | reflexivity]. }
  unfold removeExtraRow in *. cbn [Form.with_extra Form.extra] in Hsame.
  rewrite Hsame. unfold addExtraRow. rewrite with_extra_twice. apply with_extra_same.
Qed.

Lemma updateExtra_form (i : nat) (p : prop) (v : string) (f : Form.t) :
  Forall (λ e, e ≠ Hole) (Form.extra f) → i < length (Form.extra f) →
  updateExtra i p v f
  = Form.with_extra
      (<[i := Obj (spread_with (Arr.get (Form.extra f) i) p v)]> (Form.extra f)) f.
Proof.
  intros Hf Hi. unfold updateExtra. rewrite (spread_no_holes _ Hf). unfold Arr.set.
  destruct (decide _); [reflexivity | lia].
Qed.

Lemma with_extra_extra (rows : list elt) (f : Form.t) :
  Form.extra (Form.with_extra rows f) = rows.
Proof. reflexivity. Qed.

Lemma insert_no_holes (i : nat) (r : Row.t) (a : list elt) :
  Forall (λ e, e ≠ Hole) a → Forall (λ e, e ≠ Hole) (<[i := Obj r]> a).
Proof.
  intros Ha. destruct (decide (i < length a)) as [Hi|Hi].
  - apply Forall_insert; [exact Ha | discriminate].
  - rewrite list_insert_ge by lia. exact Ha.
Qed.

Lemma Arr_get_insert_eq (i : nat) (r : Row.t) (a : list elt) :
  i < length a → Arr.get (<[i := Obj r]> a) i = Obj r.
Proof. intros Hi. unfold Arr.get. rewrite list_lookup_insert_eq by exact Hi. reflexivity. Qed.

Lemma Arr_get_insert_ne (i j : nat) (x : elt) (a : list elt) :
  i ≠ j → Arr.get (<[i := x]> a) j = Arr.get a j.
Proof. intros Hne. unfold Arr.get. rewrite list_lookup_insert_ne by exact Hne. reflexivity. Qed.

(** X16. On a row list without holes, typing into the inputs of rows
    that exist composes as expected: changes to two different rows can
    be made in either order, so can the change of a row's key and the
    change of its value, and of two changes of the same input the later
    one stands. *)
Theorem updateExtra_composes (i j : nat) (p p' : prop) (v v' : string) (f : Form.t) :
  Forall (λ e, e ≠ Hole) (Form.extra f) →
  i < length (Form.extra f) → j < length (Form.extra f) →
  (i ≠ j → updateExtra i p v (updateExtra j p' v' f)
           = updateExtra j p' v' (updateExtra i p v f))
  ∧ updateExtra i PKey v (updateExtra i PValue v' f)
    = updateExtra i PValue v' (updateExtra i PKey v f)
  ∧ updateExtra i p v (updateExtra i p v' f) = updateExtra i p v f.
Proof.
  intros Hf Hi Hj.
  assert (Hstep : ∀ k q u g, Forall (λ e, e ≠ Hole) (Form.extra g) →
            k < length (Form.extra g) →
            Forall (λ e, e ≠ Hole) (Form.extra (updateExtra k q u g))
            ∧ length (Form.extra (updateExtra k q u g)) = length (Form.extra g)).
  { intros k q u g Hg Hk. rewrite (updateExtra_form k q u g Hg Hk), with_extra_extra.
    split; [apply insert_no_holes, Hg | apply length_insert]. }
  split; [|split].
  - intros Hne.
    destruct (Hstep j p' v' f Hf Hj) as [Hf1 Hl1].
    destruct (Hstep i p v f Hf Hi) as [Hf2 Hl2].
    rewrite (updateExtra_form i p v _ Hf1) by lia.
    rewrite (updateExtra_form j p' v' _ Hf2) by lia.
    rewrite (updateExtra_form j p' v' f Hf Hj), (updateExtra_form i p v f Hf Hi).
    rewrite !with_extra_extra, !with_extra_twice.
    rewrite (Arr_get_insert_ne j i), (Arr_get_insert_ne i j) by congruence.
    rewrite list_insert_insert. destruct (decide (i = j)); [contradiction | reflexivity].
  - destruct (Hstep i PValue v' f Hf Hi) as [Hf1 Hl1].
    destruct (Hstep i PKey v f Hf Hi) as [Hf2 Hl2].
    rewrite (updateExtra_form i PKey v _ Hf1) by lia.
    rewrite (updateExtra_form i PValue v' _ Hf2) by lia.
    rewrite (updateExtra_form i PValue v' f Hf Hi), (updateExtra_form i PKey v f Hf Hi).
    rewrite !with_extra_extra, !with_extra_twice, !Arr_get_insert_eq by exact Hi.
    rewrite !list_insert_insert_eq. destruct (Arr.get (Form.extra f) i) as [| |[]]; reflexivity.
  - destruct (Hstep i p v' f Hf Hi) as [Hf1 Hl1].
    rewrite (updateExtra_form i p v _ Hf1) by lia.
    rewrite (updateExtra_form i p v' f Hf Hi), (updateExtra_form i p v f Hf Hi).
    rewrite !with_extra_extra, !with_extra_twice, !Arr_get_insert_eq by exact Hi.
    rewrite !list_insert_insert_eq.
    destruct (Arr.get (Form.extra f) i) as [| |[]], p; reflexivity.
Qed.

(** X17. An update past the end of the row list breaks [extraJson]: at
    an index beyond the length the array gets a hole, and at the index
    equal to the length a value typed first makes a row without key; in
    both cases [extraJson] throws on the new list. *)
Theorem updateExtra_past_the_end (i : nat) (p : prop) (v : string) (f : Form.t) :
  length (Form.extra f) < i ∨ (i = length (Form.extra f) ∧ p = PValue) →
  extraJson (Form.extra (updateExtra i p v f)) = None.
Proof.
  intros Hout.
  destruct (extraJson (Form.extra (updateExtra i p v f))) as [m|] eqn:Hm; [|reflexivity].
  exfalso.
  assert (Hall : Forall (λ e, ∃ r k, e = Obj r ∧ Row.key r = Some k)
                        (Form.extra (updateExtra i p v f))).
  { apply (extraJson_from_succeeds ∅). unfold extraJson in Hm. rewrite Hm. eauto. }
  rewrite updateExtra_extra in Hall. unfold Arr.set in Hall.
  rewrite Arr_spread_length in Hall.
  destruct (decide (i < length (Form.extra f))) as [Hi|_]; [lia|].
  apply Forall_app in Hall as [_ Hall]. apply Forall_app in Hall as [Hholes Hlast].
  destruct Hout as [Hbeyond | [-> ->]].
  - destruct (i - length (Form.extra f)) as [|n] eqn:Hn; [lia|].
    simpl in Hholes. apply Forall_cons in Hholes as [(r & k & [=] & _) _].
  - apply Forall_cons in Hlast as [(r & k & Hr & Hk) _].
    injection Hr as <-. unfold Arr.get in Hk.
    rewrite lookup_ge_None_2 in Hk by (rewrite Arr_spread_length; lia).
    discriminate.
Qed.

(** ** The request of [submit] *)

Section SubmitRequest.
Context `{JsRuntime}.

Lemma handle_edit_editingId (ev : event) (s : App.t) :
  is_edit ev → App.editingId (handle ev s) = App.editingId s.
Proof. destruct ev; simpl; intros Hev; try contradiction; reflexivity. Qed.

Lemma run_edits_editingId (evs : list event) (s : App.t) :
  Forall is_edit evs → App.editingId (run evs s) = App.editingId s.
Proof.
  intros Hevs. revert s. induction Hevs as [|ev evs Hev _ IH]; intros s; [reflexivity|].
  cbn [run fold_left]. fold (run evs (handle ev s)).
  rewrite IH. apply handle_edit_editingId, Hev.
Qed.

Lemma submit_request_target (base : string) (s : App.t) (req : Request.t) :
  submit_request base s = Some req →
  match editing (App.editingId s) with
  | Some id => Request.method req = "PUT"
               ∧ Request.url req = base +:+ "/works/" +:+ pretty id
  | None => Request.method req = "POST" ∧ Request.url req = base +:+ "/works"
  end.
Proof.
  unfold submit_request. destruct (extraJson_entries _); [|discriminate].
  intros [= <-]. destruct (editing _); split; reflexivity.
Qed.

(** X18. Whatever is typed into the form in between, the request of
    [submit] goes where the last start or end of an edit points: after
    [startEdit(work)] it is a PUT to [/works/<id>] of that work, except
    for a work whose id is 0, which is sent as a POST to [/works] like a
    new work; after a cancelled edit or an answered submit it is a POST
    to [/works]. *)
Theorem submit_target (base : string) (w : Work.t) (s : App.t)
    (evs : list event) (req : Request.t) :
  Forall is_edit evs →
  (submit_request base (run evs (startEdit w s)) = Some req →
     if (Work.id w =? 0)%Z
     then Request.method req = "POST" ∧ Request.url req = base +:+ "/works"
     else Request.method req = "PUT"
          ∧ Request.url req = base +:+ "/works/" +:+ pretty (Work.id w))
  ∧ (submit_request base (run evs (cancelEdit s)) = Some req →
     Request.method req = "POST" ∧ Request.url req = base +:+ "/works")
  ∧ (submit_request base (run evs (submit true s)) = Some req →
     Request.method req = "POST" ∧ Request.url req = base +:+ "/works").
Proof.
  intros Hevs. split; [|split]; intros Hreq;
    apply submit_request_target in Hreq;
    rewrite (run_edits_editingId evs _ Hevs) in Hreq;
    cbn [startEdit cancelEdit submit App.editingId editing] in Hreq.
  - destruct (Work.id w =? 0)%Z; exact Hreq.
  - exact Hreq.
  - exact Hreq.
Qed.

End SubmitRequest.

Lemma appendIf_keys (key value : string) (fd : list (string * part)) :
  (appendIf key value fd).*1
  = (fd.*1 ++ (if String.eqb value "" then [] else [key]))%list.
Proof.
  unfold appendIf. destruct (String.eqb value "").
  - rewrite app_nil_r. reflexivity.
  - rewrite fmap_app. reflexivity.
Qed.

Lemma elem_of_optional (k key value : string) :
  k ∈ (if String.eqb value "" then [] else [key]) ↔ k = key ∧ value ≠ "".
Proof.
  rewrite eqb_empty_truthy. destruct (Js.truthy value) eqn:Ht; simpl.
  - apply truthy_true in Ht. rewrite list_elem_of_singleton. tauto.
  - apply truthy_false in Ht. rewrite elem_of_nil. tauto.
Qed.

Lemma sublist_optional (key value : string) :
  (if String.eqb value "" then [] else [key]) `sublist_of` [key].
Proof. destruct (String.eqb value ""); [apply sublist_nil_l | reflexivity]. Qed.

Lemma submit_body_keys (f : Form.t) (extra : list (string * option string)) :
  (submit_body f extra).*1
  = (["title"]
    ++ (if String.eqb (Form.author_name f) "" then [] else ["author_name"])
    ++ (if String.eqb (Form.circle_name f) "" then [] else ["circle_name"])
    ++ ["is_r18"]
    ++ (if String.eqb (Form.summary f) "" then [] else ["summary"])
    ++ (if String.eqb (Form.purchase_date f) "" then [] else ["purchase_date"])
    ++ (if String.eqb (Form.purchase_event_name f) "" then []
        else ["purchase_event_name"])
    ++ (if String.eqb (Form.price f) "" then [] else ["price"])
    ++ (if String.eqb (Form.tags f) "" then [] else ["tags"])
    ++ ["extra"]
    ++ (match Form.cover f with Some _ => ["cover"] | None => [] end))%list.
Proof.
  unfold submit_body.
  assert (Hcover : ∀ fd : list (string * part),
            (match Form.cover f with
             | Some file => (fd ++ [("cover", PFile file)])%list
             | None => fd
             end).*1 = (fd.*1 ++ (match Form.cover f with Some _ => ["cover"] | None => [] end))%list).
  { intros fd. destruct (Form.cover f);
      [rewrite fmap_app; reflexivity | symmetry; apply app_nil_r]. }
  rewrite Hcover, !fmap_app, !appendIf_keys, !fmap_app, !appendIf_keys.
  cbn [fmap list_fmap fst]. rewrite <- !app_assoc. reflexivity.
Qed.

(** X19. The form data of [submit] names each key at most once, in a
    fixed order. [title], [is_r18] and [extra] are always there; each of
    [author_name], [circle_name], [summary], [purchase_date],
    [purchase_event_name], [price] and [tags] is there exactly when its
    input is not empty, so an emptied input is not sent at all; [cover]
    is there exactly when a file was chosen. *)
Theorem submit_body_fields (f : Form.t) (extra : list (string * option string)) :
  (submit_body f extra).*1 `sublist_of` submit_keys
  ∧ NoDup (submit_body f extra).*1
  ∧ "title" ∈ (submit_body f extra).*1
  ∧ "is_r18" ∈ (submit_body f extra).*1
  ∧ "extra" ∈ (submit_body f extra).*1
  ∧ ("author_name" ∈ (submit_body f extra).*1 ↔ Form.author_name f ≠ "")
  ∧ ("circle_name" ∈ (submit_body f extra).*1 ↔ Form.circle_name f ≠ "")
  ∧ ("summary" ∈ (submit_body f extra).*1 ↔ Form.summary f ≠ "")
  ∧ ("purchase_date" ∈ (submit_body f extra).*1 ↔ Form.purchase_date f ≠ "")
  ∧ ("purchase_event_name" ∈ (submit_body f extra).*1
     ↔ Form.purchase_event_name f ≠ "")
  ∧ ("price" ∈ (submit_body f extra).*1 ↔ Form.price f ≠ "")
  ∧ ("tags" ∈ (submit_body f extra).*1 ↔ Form.tags f ≠ "")
  ∧ ("cover" ∈ (submit_body f extra).*1 ↔ is_Some (Form.cover f)).
Proof.
  assert (Hsub : (submit_body f extra).*1 `sublist_of` submit_keys).
  { rewrite submit_body_keys.
    change submit_keys
      with (["title"] ++ ["author_name"] ++ ["circle_name"] ++ ["is_r18"]
            ++ ["summary"] ++ ["purchase_date"] ++ ["purchase_event_name"]
            ++ ["price"] ++ ["tags"] ++ ["extra"] ++ ["cover"])%list.
    repeat (apply sublist_app; [first [reflexivity | apply sublist_optional]|]).
    destruct (Form.cover f); [reflexivity | apply sublist_nil_l]. }
  assert (Hcover : ∀ k, k ∈ (match Form.cover f with Some _ => ["cover"] | None => [] end)
                        ↔ k = "cover" ∧ is_Some (Form.cover f)).
  { intros k. destruct (Form.cover f).
    - rewrite list_elem_of_singleton. split; [eauto | tauto].
    - rewrite elem_of_nil. split; [tauto | intros [_ [? [=]]]]. }
  split; [exact Hsub|]. split.
  { eapply sublist_NoDup; [|exact Hsub]. unfold submit_keys.
    apply (bool_decide_unpack _). vm_compute. exact I. }
  rewrite submit_body_keys.
  repeat split; rewrite ?elem_of_app, ?elem_of_optional, ?Hcover, ?list_elem_of_singleton;
    try (intros; intuition (try discriminate; eauto)).
Qed.

(** ** Saving a work that was loaded for an edit *)

Lemma replace_absent (k : string) (v : option string)
    (es : list (string * option string)) :
  k ∉ es.*1 → Props.replace k v es = None.
Proof.
  induction es as [|[k' v'] es IH]; simpl; [reflexivity|].
  rewrite not_elem_of_cons. intros [Hne Hin].
  destruct (decide (k' = k)); [congruence|]. rewrite (IH Hin). reflexivity.
Qed.

Lemma entries_from_appended (acc : list (string * option string))
    (kvs : list (string * string)) :
  Forall (λ kv, Js.trim kv.1 = kv.1 ∧ kv.1 ≠ "" ∧ kv.1 ≠ "__proto__"
                ∧ Props.array_index kv.1 = None) kvs →
  NoDup (acc.*1 ++ kvs.*1)%list →
  extraJson_entries_from acc (row_of <$> kvs)
  = Some (acc ++ ((λ kv, (kv.1, Some kv.2)) <$> kvs))%list.
Proof.
  intros Hclean. revert acc.
  induction Hclean as [|kv kvs (Htrim & Hne & Hp & Hidx) _ IH]; intros acc Hnd.
  - simpl. rewrite app_nil_r. reflexivity.
  - rewrite !fmap_cons. cbn [extraJson_entries_from extraJson_entries_step row_of
                              Row.key Row.value].
    rewrite Htrim. apply truthy_true in Hne. rewrite Hne.
    assert (Hfresh : kv.1 ∉ acc.*1).
    { rewrite fmap_cons in Hnd. apply NoDup_app in Hnd as (_ & Hdisj & _).
      intros Hin. apply (Hdisj _ Hin). left. }
    unfold Props.set. destruct (decide (kv.1 = "__proto__")); [contradiction|].
    rewrite (replace_absent _ _ _ Hfresh), Hidx, IH.
    + rewrite <- app_assoc. reflexivity.
    + rewrite fmap_app, <- app_assoc. exact Hnd.
Qed.

Lemma defined_lifted (kvs : list (string * string)) :
  Props.defined ((λ kv, (kv.1, Some kv.2)) <$> kvs) = kvs.
Proof.
  unfold Props.defined. induction kvs as [|[k v] kvs IH]; [reflexivity|].
  rewrite fmap_cons. cbn [omap list_omap fst snd]. rewrite IH. reflexivity.
Qed.

Lemma submit_body_extra (f : Form.t) (es : list (string * option string)) :
  ("extra", PText (JSON.stringify (Props.defined es))) ∈ submit_body f es.
Proof.
  unfold submit_body. destruct (Form.cover f); [apply elem_of_app; left|];
    apply elem_of_app; right; apply list_elem_of_singleton; reflexivity.
Qed.

(** X20. Saving a work right after loading it for an edit sends its
    extra attributes back as they came: when the keys of [work.extra] are
    distinct, trimmed, not empty, not ["__proto__"] and not array
    indices, the [extra] entry of the request is the JSON text of
    [work.extra] itself, with the properties in their order. *)
Theorem edit_resubmits_extra `{JsRuntime} (base : string) (w : Work.t) (s : App.t) :
  NoDup (default [] (Work.extra w)).*1 →
  Forall (λ kv, Js.trim kv.1 = kv.1 ∧ kv.1 ≠ "" ∧ kv.1 ≠ "__proto__"
                ∧ Props.array_index kv.1 = None) (default [] (Work.extra w)) →
  ∃ req, submit_request base (startEdit w s) = Some req
         ∧ ("extra", PText (JSON.stringify (default [] (Work.extra w))))
           ∈ Request.body req.
Proof.
  intros Hnd Hclean.
  assert (Hentries : ∃ es, extraJson_entries (Form.extra (App.form (startEdit w s)))
                           = Some es
                           ∧ Props.defined es = default [] (Work.extra w)).
  { cbn [startEdit App.form Form.extra]. unfold rows_of_work.
    destruct (Work.extra w) as [[|kv kvs]|]; cbn [default] in *.
    - exists []. split; reflexivity.
    - eexists. split; [apply (entries_from_appended [] (kv :: kvs) Hclean Hnd)|].
      apply defined_lifted.
    - exists []. split; reflexivity. }
  destruct Hentries as (es & Hes & Hdef). unfold submit_request. rewrite Hes.
  eexists. split; [reflexivity|]. rewrite <- Hdef.
  destruct (editing _); apply submit_body_extra.
Qed.

(** ** Searching the extra attributes *)

Section ExtraSearch.
Context `{JsRuntime}.

(** A part of a part of ASCII text is found, letter case ignored. *)
Lemma isubstring_of_part (term part pre post : string) :
  Js.ascii_text term = true → Js.ascii_text (pre +:+ part +:+ post) = true →
  Spec.isubstring term part → Spec.isubstring term (pre +:+ part +:+ post).
Proof.
  intros Ht Hs Hsub.
  assert (Hpart : Js.ascii_text part = true).
  { rewrite !ascii_text_app, !andb_true_iff in Hs. tauto. }
  apply (isubstring_ascii _ _ Ht Hpart) in Hsub as (p & mid & q' & -> & Hmid).
  apply (isubstring_ascii _ _ Ht Hs).
  exists (pre +:+ p), mid, (q' +:+ post). split; [|exact Hmid].
  rewrite !append_assoc. reflexivity.
Qed.

Lemma stringify_key_value (k v : string) (kvs : list (string * string)) :
  (k, v) ∈ kvs →
  (∃ pre post, JSON.stringify kvs = pre +:+ JSON.escape k +:+ post)
  ∧ (∃ pre post, JSON.stringify kvs = pre +:+ JSON.escape v +:+ post).
Proof.
  intros Hin. destruct (stringify_member k v kvs Hin) as (pre & post & ->).
  unfold JSON.quote. set (dq := ascii_of_nat 34). split.
  - exists (pre +:+ String dq ""),
      (String dq "" +:+ ":" +:+ String dq (JSON.escape v +:+ String dq "") +:+ post).
    rewrite !append_assoc, ?append_cons. cbn [String.append].
    rewrite !append_assoc, ?append_cons. reflexivity.
  - exists (pre +:+ String dq (JSON.escape k +:+ String dq "") +:+ ":" +:+ String dq ""),
      (String dq "" +:+ post).
    rewrite !append_assoc, ?append_cons. cbn [String.append].
    rewrite !append_assoc, ?append_cons. reflexivity.
Qed.

(** X21. The extra search finds a work by its keys and by its values,
    on ASCII text. When the rendering of the work's extra attributes and
    the search text are ASCII text, and the search text occurs (letter
    case ignored) in a key or in a value of one of the attributes, and
    that key or value has no character that JSON escapes, the extra
    criterion does not exclude the work: the filter decides on it as
    with the criterion cleared. *)
Theorem extra_search_finds (term : string) (f : Filters.t) (w : Work.t)
    (k v : string) :
  (k, v) ∈ default [] (Work.extra w) →
  Js.ascii_text term = true →
  Js.ascii_text (JSON.stringify (default [] (Work.extra w))) = true →
  (JSON.escape k = k ∧ Spec.isubstring term k)
  ∨ (JSON.escape v = v ∧ Spec.isubstring term v) →
  keep (updateFilter NExtra term f) w = keep (updateFilter NExtra "" f) w.
Proof.
  intros Hin Ht Hs Hfound. apply bool_eq_of_iff.
  rewrite !keep_true_iff, (relax_extra (updateFilter NExtra term f)), updateFilter_twice.
  enough (Spec.extra_ok (Filters.extra (updateFilter NExtra term f)) (Work.extra w))
    by tauto.
  rewrite filter_value_extra. right.
  destruct (stringify_key_value k v _ Hin) as [(pre & post & Hk) (pre' & post' & Hv)].
  destruct Hfound as [[He Hsub] | [He Hsub]]; rewrite He in *.
  - rewrite Hk in Hs |- *. apply (isubstring_of_part _ _ _ _ Ht Hs Hsub).
  - rewrite Hv in Hs |- *. apply (isubstring_of_part _ _ _ _ Ht Hs Hsub).
Qed.

End ExtraSearch.

(** ** The further properties on the small catalogue *)

Section MoreExamples.
#[local] Existing Instance Demo.runtime.

Lemma reachable_extraJson_total_witness :
  is_Some (extraJson (Form.extra (App.form
    (handle (EUpdateExtra 1 PKey "size") (handle EAddExtraRow App.initial))))).
Proof.
  apply reachable_extraJson_total.
  apply reach_step; [apply reach_step; [apply reach_initial | exact I] |].
  simpl. lia.
Defined.

Lemma edit_restores_extra_witness :
  ∃ m, extraJson (Form.extra (App.form (startEdit Demo.sample App.initial))) = Some m
       ∧ ∀ k, m !! k
              = Some <$> (list_to_map [("size", "B5"); ("pages", "24")]
                          : gmap string string) !! k.
Proof.
  apply (edit_restores_extra Demo.sample App.initial).
  - apply (bool_decide_unpack _). vm_compute. exact I.
  - repeat constructor; discriminate.
Defined.

(** The key of a row typed between an ideographic space and a no-break
    space. *)
Lemma extraJson_keys_trimmed_witness :
  "size" ≠ "" ∧ "size" ≠ "__proto__" ∧ Js.trim "size" = "size"
  ∧ ∃ r k0, Obj r ∈ [row_of (Demo.wide_space +:+ "size" +:+ Demo.nbsp, "B5")]
            ∧ Row.key r = Some k0 ∧ Js.trim k0 = "size".
Proof.
  apply (extraJson_keys_trimmed [row_of (Demo.wide_space +:+ "size" +:+ Demo.nbsp, "B5")]
           {["size" := Some "B5"]} "size").
  - reflexivity.
  - rewrite lookup_singleton_eq. eauto.
Defined.

(** The same row, submitted: the value is stored under the trimmed
    key. *)
Example extraJson_wide_space :
  extraJson [row_of (Demo.wide_space +:+ "size" +:+ Demo.nbsp, "B5")]
  = Some {["size" := Some "B5"]}.
Proof. reflexivity. Qed.

Lemma setting_a_criterion_narrows_witness :
  filteredWorks Demo.catalogue (Demo.on NTags "comedy")
    `sublist_of` filteredWorks Demo.catalogue Filters.initial.
Proof.
  apply (setting_a_criterion_narrows NTags "comedy" Filters.initial Demo.catalogue).
  reflexivity.
Defined.

Lemma longer_text_narrows_witness :
  filteredWorks Demo.catalogue (Demo.on NTags "Drama")
    `sublist_of` filteredWorks Demo.catalogue (Demo.on NTags "dra").
Proof.
  apply (longer_text_narrows NTags "dra" "Drama" Filters.initial Demo.catalogue).
  - reflexivity.
  - exists "", "ma". reflexivity.
Defined.

Lemma search_ignores_case_witness :
  filteredWorks Demo.catalogue (Demo.on NTitle "NIGHT")
  = filteredWorks Demo.catalogue (Demo.on NTitle "night").
Proof.
  apply (search_ignores_case NTitle "NIGHT" "night" Filters.initial Demo.catalogue);
    reflexivity.
Defined.

Lemma unreadable_values_pass_bounds_witness :
  keep (Demo.on NPriceMin "500") (Work.mk 5 (Some "Gift") None None None None None
                                    None (Some (SStr "free")) None None None)
  = true.
Proof.
  set (w := Work.mk 5 (Some "Gift") None None None None None None
              (Some (SStr "free")) None None None).
  destruct (unreadable_values_pass_bounds (Demo.on NPriceMin "500") w) as [Hprice _].
  rewrite (Hprice (SStr "free") eq_refl); [reflexivity | vm_compute; reflexivity].
Defined.

Lemma unreadable_bounds_witness :
  keep (Demo.on NPriceMin "cheap") Demo.sample = true
  ↔ is_Some (Work.price Demo.sample) ∧ keep Filters.initial Demo.sample = true.
Proof.
  apply (proj1 (unreadable_bounds (Demo.on NPriceMin "cheap") Demo.sample)).
  - discriminate.
  - vm_compute. reflexivity.
Defined.

Lemma list_click_author_circle_witness :
  keep (Listing.filters (applyAuthorFilter (Some "Taro") Listing.initial)) Demo.sample
  = true.
Proof.
  destruct (list_click_author_circle "Taro" Listing.initial Demo.sample)
    as (_ & _ & _ & _ & Hexact & _); [discriminate|].
  apply (Hexact 1%Z); reflexivity.
Defined.

Lemma list_click_tag_event_witness :
  keep (Listing.filters (applyTagFilter (Some "drama") Listing.initial)) Demo.adult
  = true.
Proof.
  destruct (list_click_tag_event "drama" Listing.initial Demo.adult)
    as (_ & _ & _ & Hexact & _); [discriminate|].
  apply Hexact; [|reflexivity]. simpl. apply list_elem_of_singleton. reflexivity.
Defined.

Lemma removeExtraRow_deletes_witness :
  Form.extra (removeExtraRow 0 (addExtraRow Form.blank)) = [Obj emptyExtraRow]
  ∧ Form.extra (removeExtraRow 0 Form.blank) = [Obj emptyExtraRow].
Proof.
  split.
  - apply (proj1 (removeExtraRow_deletes 0 (addExtraRow Form.blank)
                    ltac:(repeat constructor; discriminate))).
  - apply (proj1 (removeExtraRow_deletes 0 Form.blank
                    ltac:(repeat constructor; discriminate))).
Defined.

Lemma add_then_remove_witness :
  removeExtraRow 1 (addExtraRow Form.blank) = Form.blank.
Proof.
  apply (add_then_remove Form.blank); [repeat constructor; discriminate | simpl; lia].
Defined.

Lemma updateExtra_composes_witness :
  updateExtra 0 PKey "size" (updateExtra 0 PValue "B5" Form.blank)
  = updateExtra 0 PValue "B5" (updateExtra 0 PKey "size" Form.blank).
Proof.
  apply (updateExtra_composes 0 0 PKey PValue "size" "B5" Form.blank);
    [repeat constructor; discriminate | simpl; lia | simpl; lia].
Defined.

Lemma updateExtra_past_the_end_witness :
  extraJson (Form.extra (updateExtra 3 PKey "size" Form.blank)) = None.
Proof.
  apply (updateExtra_past_the_end 3 PKey "size" Form.blank). left. simpl. lia.
Defined.

Lemma submit_target_witness :
  ∃ req,
    submit_request "http://localhost:8080"
      (run [EUpdateField (FTitle "Sample 2"); EAddExtraRow]
           (startEdit Demo.sample App.initial)) = Some req
    ∧ Request.method req = "PUT"
    ∧ Request.url req = "http://localhost:8080/works/1".
Proof.
  eexists. split; [reflexivity|].
  apply (proj1 (submit_target "http://localhost:8080" Demo.sample App.initial
                  [EUpdateField (FTitle "Sample 2"); EAddExtraRow] _
                  ltac:(repeat constructor)) eq_refl).
Defined.

Lemma edit_resubmits_extra_witness :
  ∃ req, submit_request "http://localhost:8080" (startEdit Demo.sample App.initial)
         = Some req
         ∧ ("extra", PText (JSON.stringify [("size", "B5"); ("pages", "24")]))
           ∈ Request.body req.
Proof.
  apply (edit_resubmits_extra "http://localhost:8080" Demo.sample App.initial).
  - apply (bool_decide_unpack _). vm_compute. exact I.
  - repeat constructor; discriminate.
Defined.

Lemma extra_search_finds_witness :
  keep (Demo.on NExtra "b5") Demo.sample = true.
Proof.
  rewrite (extra_search_finds "b5" Filters.initial Demo.sample "size" "B5").
  - reflexivity.
  - simpl. left.
  - reflexivity.
  - reflexivity.
  - right. split; [reflexivity|]. exists "", "". reflexivity.
Defined.

End MoreExamples.
